(** * ts-todo: a shallow embedding of the task model, the console front end
      and the browser front end, with the properties of the specification.

    Conventions of the embedding.
    - A JavaScript [number] that holds a task id is an integer [Z] that
      stands for a double.  [Math.max] and [===] are exact on doubles; the
      sum [+ 1] and the result of [parseInt] are rounded to the nearest
      double ([JS.to_double]), so they are exact up to 2^53 and round
      beyond.  The decimal text of a number ([JS.Number_toString]) is the
      one JavaScript prints for the integers of magnitude below 2^53;
      infinities and NaN ids are not represented.
    - A JavaScript string is a [string]: a sequence of code units, here the
      code units below 256.
    - [new Date().toISOString()] reads the clock: the reading is an explicit
      argument [now] of every function that takes one.
    - [console.log] and [console.error] append a line to an output field of
      the state. *)

From Stdlib Require Import ZArith List String Ascii Bool Lia.
From Stdlib Require Import Decimal DecimalString DecimalZ DecimalPos DecimalFacts.
Import ListNotations.

#[local] Open Scope string_scope.
#[local] Open Scope Z_scope.

(** ** The JavaScript built-ins the program calls *)

Module JS.

(** The line feed and the double quote, as one-character strings. *)
Definition LF : string := String "010" EmptyString.
Definition DQUOTE : string := String (ascii_of_nat 34) EmptyString.

(** [String(n)] / template interpolation of an integer-valued number:
    its decimal digits, which is what JavaScript prints for the integers of
    magnitude below 2^53 (beyond, JavaScript prints the shortest digits
    that read back as the double, in exponent notation from 10^21). *)
Definition Number_toString (n : Z) : string :=
  NilZero.string_of_int (Z.to_int n).

(** [Math.max(x, ...xs)] on at least one argument. *)
Definition Math_max (x : Z) (xs : list Z) : Z := fold_left Z.max xs x.

(** 2^53: up to this magnitude every integer is a double. *)
Definition two53 : Z := 9007199254740992.

(** [Number.isSafeInteger]. *)
Definition safe (z : Z) : Prop := Z.abs z < two53.

(** The double nearest to an integer, ties going to the even significand
    of 53 bits (the rounding of IEEE 754 arithmetic; the overflow to
    Infinity above 2^1024 is not represented). *)
Definition to_double (z : Z) : Z :=
  if Z.abs z <=? two53 then z
  else
    let e := Z.log2 (Z.abs z) - 52 in
    let q := Z.abs z / 2 ^ e in
    let r := Z.abs z mod 2 ^ e in
    let half := 2 ^ (e - 1) in
    let q' :=
      if r <? half then q
      else if half <? r then q + 1
      else if Z.even q then q else q + 1 in
    Z.sgn z * (q' * 2 ^ e).

(** [x + y] on numbers. *)
Definition add (x y : Z) : Z := to_double (x + y).

(** White space removed by [String.prototype.trim], among the code units
    below 256: TAB, LF, VT, FF, CR, SPACE and NBSP. *)
Definition is_white_space (c : ascii) : bool :=
  let n := nat_of_ascii c in
  ((9 <=? n) && (n <=? 13) || (n =? 32) || (n =? 160))%nat.

Fixpoint trimStart (s : string) : string :=
  match s with
  | EmptyString => EmptyString
  | String c r => if is_white_space c then trimStart r else s
  end.

(** [trimEnd] keeps a character when it is not white space or when something
    remains to its right after trimming. *)
Fixpoint trimEnd (s : string) : string :=
  match s with
  | EmptyString => EmptyString
  | String c r =>
      match trimEnd r with
      | EmptyString => if is_white_space c then EmptyString else String c EmptyString
      | r' => String c r'
      end
  end.

Definition trim (s : string) : string := trimEnd (trimStart s).

(** [s.split(sep)] for a one-character separator: never the empty list. *)
Fixpoint split (sep : ascii) (s : string) : list string :=
  match s with
  | EmptyString => [EmptyString]
  | String c r =>
      if Ascii.eqb c sep then EmptyString :: split sep r
      else match split sep r with
           | h :: t => String c h :: t
           | [] => [String c EmptyString]
           end
  end.

(** [parts.join(sep)]. *)
Definition join (sep : string) (parts : list string) : string :=
  String.concat sep parts.

(** [parts.slice(1)]. *)
Definition slice1 {A} (parts : list A) : list A := tl parts.

(** [String.prototype.toLowerCase] on the code units below 256: the letters
    A-Z and the Latin-1 capitals 0xC0-0xDE other than the multiplication
    sign 0xD7 move up by 32. *)
Definition lower_char (c : ascii) : ascii :=
  let n := nat_of_ascii c in
  if ((65 <=? n) && (n <=? 90)
      || (192 <=? n) && (n <=? 222) && negb (n =? 215))%nat
  then ascii_of_nat (n + 32) else c.

Fixpoint toLowerCase (s : string) : string :=
  match s with
  | EmptyString => EmptyString
  | String c r => String (lower_char c) (toLowerCase r)
  end.

Definition is_digit (c : ascii) : bool :=
  let n := nat_of_ascii c in ((48 <=? n) && (n <=? 57))%nat.

(** The longest prefix of decimal digits, and what follows it. *)
Fixpoint span_digits (s : string) : string * string :=
  match s with
  | EmptyString => (EmptyString, EmptyString)
  | String c r =>
      if is_digit c
      then let (ds, rest) := span_digits r in (String c ds, rest)
      else (EmptyString, s)
  end.

(** The value of a non-empty string of decimal digits. *)
Definition digits_value (ds : string) : option Z :=
  option_map Z.of_uint (NilZero.uint_of_string ds).

(** [parseInt(s, 10)]: leading white space is skipped, one sign is accepted,
    then the longest run of digits is read and whatever follows is ignored;
    the integer read is rounded to a double; [None] is [NaN] (no digit where
    one is expected). *)
Definition parseInt (s : string) : option Z :=
  option_map to_double
    match trimStart s with
    | String "-" r => option_map Z.opp (digits_value (fst (span_digits r)))
    | String "+" r => digits_value (fst (span_digits r))
    | r => digits_value (fst (span_digits r))
    end.

End JS.

(** ** The task model (todo module) *)

Module Todo.

Record Task := mkTask {
  id : Z;
  text : string;
  completed : bool;
  createdAt : string
}.

(** [{ ...task, completed: true }] *)
Definition set_completed (b : bool) (task : Task) : Task :=
  mkTask (id task) (text task) b (createdAt task).

Definition addTask (now : string) (tasks : list Task) (text : string)
  : list Task :=
  let newTask :=
    mkTask
      (match tasks with
       | t :: ts => JS.add (JS.Math_max (id t) (map id ts)) 1
       | [] => 1
       end)
      text
      false
      now in
  (tasks ++ [newTask])%list.

Definition listTasks (tasks : list Task) : string :=
  if (List.length tasks =? 0)%nat then "No tasks yet."
  else
    let formattedTasks :=
      map (fun task =>
             let status := if completed task then "x" else " " in
             "[" ++ status ++ "] " ++ JS.Number_toString (id task)
                 ++ " - " ++ text task)
          tasks in
    JS.join JS.LF formattedTasks.

Definition markDone (tasks : list Task) (id0 : Z) : list Task :=
  map (fun task =>
         if id task =? id0 then set_completed true task else task)
      tasks.

End Todo.

(** ** The console front end *)

Module Cli.

(** The module state: the [tasks] variable, what [console.log] has printed
    (oldest line first) and the exit code once [process.exit] was called. *)
Record State := mkState {
  tasks : list Todo.Task;
  stdout : list string;
  exited : option Z
}.

Definition initial : State := mkState [] [] None.

Definition console_log (line : string) (st : State) : State :=
  mkState (tasks st) (stdout st ++ [line])%list (exited st).

Definition set_tasks (ts : list Todo.Task) (st : State) : State :=
  mkState ts (stdout st) (exited st).

Definition process_exit (code : Z) (st : State) : State :=
  mkState (tasks st) (stdout st) (Some code).

(** [rl.close()] runs the listener that [main] registers for the close
    event: it prints a farewell and exits with code 0. *)
Definition rl_close (st : State) : State :=
  process_exit 0 (console_log (JS.LF ++ "Goodbye!") st).

Definition showHelp (st : State) : State :=
  console_log ("  quit            - Exit the application" ++ JS.LF)
 (console_log "  help            - Show this help message"
 (console_log "  done <id>       - Mark a task as completed"
 (console_log "  list            - Show all tasks"
 (console_log "  add <task text>  - Add a new task"
 (console_log (JS.LF ++ "Available commands:") st))))).

Definition processCommand (now : string) (input : string) (st : State)
  : State :=
  let trimmed := JS.trim input in
  let parts := JS.split " " trimmed in
  let command := JS.toLowerCase (hd EmptyString parts) in
  if String.eqb command "add" then
    let taskText := JS.join " " (JS.slice1 parts) in
    if (String.length taskText =? 0)%nat then
      console_log "Error: Task text cannot be empty. Use: add <task text>" st
    else
      console_log "Task added successfully!"
        (set_tasks (Todo.addTask now (tasks st) taskText) st)
  else if String.eqb command "list" then
    console_log (JS.LF ++ Todo.listTasks (tasks st) ++ JS.LF) st
  else if String.eqb command "done" then
    let idStr := JS.trim (JS.join " " (JS.slice1 parts)) in
    if String.eqb idStr EmptyString then
      console_log "Error: Please provide a task ID. Use: done <id>" st
    else
      match JS.parseInt idStr with
      | None =>
          console_log ("Error: " ++ JS.DQUOTE ++ idStr ++ JS.DQUOTE
                         ++ " is not a valid task ID. Please use a number.") st
      | Some id =>
          let taskExists :=
            existsb (fun t => Todo.id t =? id) (tasks st) in
          if negb taskExists then
            console_log ("Error: Task with ID " ++ JS.Number_toString id
                           ++ " not found.") st
          else
            console_log ("Task " ++ JS.Number_toString id ++ " marked as done!")
              (set_tasks (Todo.markDone (tasks st) id) st)
      end
  else if String.eqb command "help" then showHelp st
  else if String.eqb command "quit" then
    process_exit 0 (rl_close (console_log "Goodbye!" st))
  else if String.eqb command EmptyString then st
  else
    console_log ("Unknown command: " ++ JS.DQUOTE ++ command ++ JS.DQUOTE
                   ++ ". Type " ++ JS.DQUOTE ++ "help" ++ JS.DQUOTE
                   ++ " for available commands.") st.

(** The line listener of [main]: one command per line, in order, until the
    process has exited.  The [i]-th clock reading stamps the [i]-th line. *)
Fixpoint run (lines : list (string * string)) (st : State) : State :=
  match lines with
  | [] => st
  | (now, input) :: rest =>
      match exited st with
      | Some _ => st
      | None => run rest (processCommand now input st)
      end
  end.

End Cli.

(** ** JSON text: [JSON.stringify] and [JSON.parse] *)

Module JSON.

(** The values JSON text denotes.  [Num m e] is the number m * 10^e; an
    integer n is [Num n 0].  The members of an object are kept in insertion
    order. *)
#[local] Set Warnings "-register-all".
Inductive value :=
| Null
| Bool (b : bool)
| Num (mant exp10 : Z)
| Str (s : string)
| Arr (elems : list value)
| Obj (members : list (string * value)).

Definition DQUOTE : ascii := ascii_of_nat 34.
Definition BACKSLASH : ascii := ascii_of_nat 92.

Definition hex_char (n : N) : ascii :=
  ascii_of_N (if (n <? 10)%N then 48 + n else 87 + n).

(** One code unit inside a quoted string (QuoteJSONString). *)
Definition escape (c : ascii) : string :=
  let n := N_of_ascii c in
  if (n =? 8)%N then "\b"
  else if (n =? 9)%N then "\t"
  else if (n =? 10)%N then "\n"
  else if (n =? 12)%N then "\f"
  else if (n =? 13)%N then "\r"
  else if (n =? 34)%N then String BACKSLASH (String DQUOTE EmptyString)
  else if (n =? 92)%N then String BACKSLASH (String BACKSLASH EmptyString)
  else if (n <? 32)%N then
    "\u00" ++ String (hex_char (n / 16)) (String (hex_char (n mod 16)) EmptyString)
  else String c EmptyString.

Fixpoint quote_body (s : string) : string :=
  match s with
  | EmptyString => EmptyString
  | String c r => escape c ++ quote_body r
  end.

Definition quote (s : string) : string :=
  String DQUOTE (quote_body s ++ String DQUOTE EmptyString).

(** An integer prints as its decimal digits; a number with a decimal
    exponent prints in exponent notation. *)
Definition number_text (m e : Z) : string :=
  if e =? 0 then JS.Number_toString m
  else JS.Number_toString m ++ "e" ++ JS.Number_toString e.

(** [JSON.stringify(v)] without indentation. *)
Fixpoint stringify (v : value) : string :=
  match v with
  | Null => "null"
  | Bool b => if b then "true" else "false"
  | Num m e => number_text m e
  | Str s => quote s
  | Arr elems => "[" ++ JS.join "," (map stringify elems) ++ "]"
  | Obj members =>
      "{" ++ JS.join ","
               (map (fun kv => match kv with
                               | (k, x) => quote k ++ ":" ++ stringify x
                               end) members)
          ++ "}"
  end.

(** *** Parsing *)

Definition is_ws (c : ascii) : bool :=
  let n := N_of_ascii c in
  ((n =? 32) || (n =? 9) || (n =? 10) || (n =? 13))%N.

Fixpoint skip_ws (s : string) : string :=
  match s with
  | EmptyString => EmptyString
  | String c r => if is_ws c then skip_ws r else s
  end.

Definition hex_value (c : ascii) : option N :=
  let n := N_of_ascii c in
  if ((48 <=? n) && (n <=? 57))%N then Some (n - 48)%N
  else if ((97 <=? n) && (n <=? 102))%N then Some (n - 87)%N
  else if ((65 <=? n) && (n <=? 70))%N then Some (n - 55)%N
  else None.

(** The code unit a [\uXXXX] escape denotes. *)
Definition hex4 (a b c d : ascii) : option N :=
  match hex_value a, hex_value b, hex_value c, hex_value d with
  | Some x, Some y, Some z, Some w => Some (((x * 16 + y) * 16 + z) * 16 + w)%N
  | _, _, _, _ => None
  end.

(** The character a one-letter escape denotes. *)
Definition unescape (e : ascii) : option ascii :=
  if Ascii.eqb e DQUOTE then Some DQUOTE
  else if Ascii.eqb e BACKSLASH then Some BACKSLASH
  else if Ascii.eqb e "/" then Some "/"%char
  else if Ascii.eqb e "b" then Some (ascii_of_nat 8)
  else if Ascii.eqb e "f" then Some (ascii_of_nat 12)
  else if Ascii.eqb e "n" then Some (ascii_of_nat 10)
  else if Ascii.eqb e "r" then Some (ascii_of_nat 13)
  else if Ascii.eqb e "t" then Some (ascii_of_nat 9)
  else None.

Definition cons_char (c : ascii) (r : option (string * string))
  : option (string * string) :=
  match r with
  | Some (body, rest) => Some (String c body, rest)
  | None => None
  end.

(** A string literal after its opening quote: the decoded body and the text
    after the closing quote.  A raw control character is an error.  An
    escape [\uXXXX] above 0x00FF denotes a code unit outside the range of
    the embedding: it is accepted and only its low byte is kept. *)
Fixpoint parse_string (s : string) : option (string * string) :=
  match s with
  | EmptyString => None
  | String c r =>
      if Ascii.eqb c DQUOTE then Some (EmptyString, r)
      else if Ascii.eqb c BACKSLASH then
        match r with
        | EmptyString => None
        | String e r1 =>
            if Ascii.eqb e "u" then
              match r1 with
              | String h1 (String h2 (String h3 (String h4 r2))) =>
                  match hex4 h1 h2 h3 h4 with
                  | Some code =>
                      cons_char (ascii_of_N (code mod 256)) (parse_string r2)
                  | None => None
                  end
              | _ => None
              end
            else
              match unescape e with
              | Some ch => cons_char ch (parse_string r1)
              | None => None
              end
        end
      else if (N_of_ascii c <? 32)%N then None
      else cons_char c (parse_string r)
  end.

(** [s] without the prefix [p], when it starts with it. *)
Fixpoint strip_prefix (p s : string) : option string :=
  match p with
  | EmptyString => Some s
  | String a p' =>
      match s with
      | EmptyString => None
      | String b s' => if Ascii.eqb a b then strip_prefix p' s' else None
      end
  end.

(** The integer part of a number: digits without a superfluous leading 0. *)
Definition int_digits_ok (ds : string) : bool :=
  match ds with
  | EmptyString => false
  | String c EmptyString => true
  | String c _ => negb (Ascii.eqb c "0")
  end.

(** An optional minus sign. *)
Definition read_minus (s : string) : bool * string :=
  match s with
  | String c r => if Ascii.eqb c "-" then (true, r) else (false, s)
  | EmptyString => (false, s)
  end.

(** An optional fraction: a point and at least one digit. *)
Definition read_fraction (s : string) : option (string * string) :=
  match s with
  | String c r =>
      if Ascii.eqb c "." then
        let (fs, r') := JS.span_digits r in
        if String.eqb fs EmptyString then None else Some (fs, r')
      else Some (EmptyString, s)
  | EmptyString => Some (EmptyString, s)
  end.

(** An optional exponent: e or E, an optional sign and at least one digit. *)
Definition read_exponent (s : string) : option (Z * string) :=
  match s with
  | String c r =>
      if Ascii.eqb c "e" || Ascii.eqb c "E" then
        let (eneg, r1) :=
          match r with
          | String g r0 =>
              if Ascii.eqb g "-" then (true, r0)
              else if Ascii.eqb g "+" then (false, r0)
              else (false, r)
          | EmptyString => (false, r)
          end in
        let (es, r2) := JS.span_digits r1 in
        match JS.digits_value es with
        | Some x => Some (if eneg then - x else x, r2)
        | None => None
        end
      else Some (0, s)
  | EmptyString => Some (0, s)
  end.

(** A number literal [-? int frac? exp?], read as mantissa and exponent. *)
Definition parse_number (s : string) : option (value * string) :=
  let (neg, s1) := read_minus s in
  let (ds, s2) := JS.span_digits s1 in
  if negb (int_digits_ok ds) then None
  else
    match read_fraction s2 with
    | None => None
    | Some (fs, s3) =>
        match read_exponent s3, JS.digits_value (ds ++ fs) with
        | Some (x, s4), Some m =>
            Some (Num (if neg then - m else m)
                      (x - Z.of_nat (String.length fs)), s4)
        | _, _ => None
        end
    end.

(** Defining a property: a key already present keeps its place and takes
    the new value. *)
Fixpoint obj_set (k : string) (x : value) (ms : list (string * value))
  : list (string * value) :=
  match ms with
  | [] => [(k, x)]
  | (k', x') :: r =>
      if String.eqb k' k then (k', x) :: r else (k', x') :: obj_set k x r
  end.

(** Recursive descent with [fuel] bounding the number of nested calls:
    [parse_value] reads one value after optional white space,
    [parse_elements] the elements of an array after its first bracket and
    [parse_members] the members of an object after its first brace; each
    returns what it read and the text that follows. *)
Fixpoint parse_value (fuel : nat) (s : string) : option (value * string) :=
  match fuel with
  | O => None
  | S fuel' =>
      match skip_ws s with
      | EmptyString => None
      | String c r =>
          if Ascii.eqb c "[" then
            match strip_prefix "]" (skip_ws r) with
            | Some r' => Some (Arr [], r')
            | None => parse_elements fuel' r []
            end
          else if Ascii.eqb c "{" then
            match strip_prefix "}" (skip_ws r) with
            | Some r' => Some (Obj [], r')
            | None => parse_members fuel' r []
            end
          else if Ascii.eqb c DQUOTE then
            match parse_string r with
            | Some (body, r') => Some (Str body, r')
            | None => None
            end
          else if Ascii.eqb c "t" then
            option_map (fun r' => (Bool true, r')) (strip_prefix "rue" r)
          else if Ascii.eqb c "f" then
            option_map (fun r' => (Bool false, r')) (strip_prefix "alse" r)
          else if Ascii.eqb c "n" then
            option_map (fun r' => (Null, r')) (strip_prefix "ull" r)
          else parse_number (String c r)
      end
  end
with parse_elements (fuel : nat) (s : string) (acc : list value)
  : option (value * string) :=
  match fuel with
  | O => None
  | S fuel' =>
      match parse_value fuel' s with
      | None => None
      | Some (x, r) =>
          match skip_ws r with
          | EmptyString => None
          | String c r' =>
              if Ascii.eqb c "," then parse_elements fuel' r' (acc ++ [x])
              else if Ascii.eqb c "]" then Some (Arr (acc ++ [x]), r')
              else None
          end
      end
  end
with parse_members (fuel : nat) (s : string) (acc : list (string * value))
  : option (value * string) :=
  match fuel with
  | O => None
  | S fuel' =>
      match strip_prefix (String DQUOTE EmptyString) (skip_ws s) with
      | None => None
      | Some r =>
          match parse_string r with
          | None => None
          | Some (k, r1) =>
              match strip_prefix ":" (skip_ws r1) with
              | None => None
              | Some r2 =>
                  match parse_value fuel' r2 with
                  | None => None
                  | Some (x, r3) =>
                      match skip_ws r3 with
                      | EmptyString => None
                      | String c r4 =>
                          if Ascii.eqb c "," then
                            parse_members fuel' r4 (obj_set k x acc)
                          else if Ascii.eqb c "}" then
                            Some (Obj (obj_set k x acc), r4)
                          else None
                      end
                  end
              end
          end
      end
  end.

(** What may follow a number without being read as part of it: the end of
    the text, or a character other than a digit, a point and an exponent
    mark. *)
Definition ends_number (rest : string) : bool :=
  match rest with
  | EmptyString => true
  | String c _ =>
      negb (JS.is_digit c || Ascii.eqb c "." || Ascii.eqb c "e"
            || Ascii.eqb c "E")
  end.

(** Fuel that no text exhausts (see [parse_value_fuel]). *)
Definition fuel_for (s : string) : nat := 2 * String.length s + 1.

(** [JSON.parse(text)]: [None] when it throws a SyntaxError. *)
Definition parse (text : string) : option value :=
  match parse_value (fuel_for text) text with
  | Some (v, rest) =>
      match skip_ws rest with
      | EmptyString => Some v
      | _ => None
      end
  | None => None
  end.

End JSON.

(** ** The browser front end *)

Module Web.

Import Todo.

(** *** Task arrays as JavaScript values

    The object literal of [addTask] creates the four properties in the order
    id, text, completed, createdAt, and no operation of the page adds,
    removes or reorders properties. *)
Definition task_value (t : Task) : JSON.value :=
  JSON.Obj [("id", JSON.Num (id t) 0);
            ("text", JSON.Str (text t));
            ("completed", JSON.Bool (completed t));
            ("createdAt", JSON.Str (createdAt t))].

Definition tasks_value (ts : list Task) : JSON.value :=
  JSON.Arr (map task_value ts).

(** The task a value is, when it has exactly that shape. *)
Definition as_task (v : JSON.value) : option Task :=
  match v with
  | JSON.Obj [(k1, JSON.Num n e); (k2, JSON.Str t);
              (k3, JSON.Bool c); (k4, JSON.Str d)] =>
      if (e =? 0) && String.eqb k1 "id" && String.eqb k2 "text"
         && String.eqb k3 "completed" && String.eqb k4 "createdAt"
      then Some (mkTask n t c d) else None
  | _ => None
  end.

Fixpoint as_task_list (vs : list JSON.value) : option (list Task) :=
  match vs with
  | [] => Some []
  | v :: r =>
      match as_task v, as_task_list r with
      | Some t, Some ts => Some (t :: ts)
      | _, _ => None
      end
  end.

Definition as_tasks (v : JSON.value) : option (list Task) :=
  match v with
  | JSON.Arr vs => as_task_list vs
  | _ => None
  end.

(** *** The page state

    [tasks] is the module variable: its static type is [Task[]], but
    [JSON.parse] returns [any], so it holds whatever value was loaded.
    [localStorage] is the slot named tasks ([None]: [getItem] returns null),
    [taskInput] the value of the text field and [console_error] the lines
    written by [console.error]. *)
Record State := mkState {
  tasks : JSON.value;
  localStorage : option string;
  taskInput : string;
  console_error : list string
}.

Definition set_tasks (v : JSON.value) (st : State) : State :=
  mkState v (localStorage st) (taskInput st) (console_error st).

Definition setItem (blob : string) (st : State) : State :=
  mkState (tasks st) (Some blob) (taskInput st) (console_error st).

Definition set_taskInput (s : string) (st : State) : State :=
  mkState (tasks st) (localStorage st) s (console_error st).

Definition log_error (line : string) (st : State) : State :=
  mkState (tasks st) (localStorage st) (taskInput st)
          (console_error st ++ [line])%list.

(** The state in which the script starts, for a given content of the slot. *)
Definition startup (stored : option string) : State :=
  mkState (JSON.Arr []) stored EmptyString [].

Definition loadTasks (st : State) : State :=
  match localStorage st with
  | None => st
  | Some stored =>
      (* [if (stored)]: the empty string is falsy *)
      if String.eqb stored EmptyString then st
      else
        match JSON.parse stored with
        | Some v => set_tasks v st
        | None =>
            set_tasks (JSON.Arr [])
              (log_error "Error loading tasks from localStorage:" st)
        end
  end.

Definition saveTasks (st : State) : State :=
  setItem (JSON.stringify (tasks st)) st.

Definition getNextId (tasks : list Task) : Z :=
  match tasks with
  | [] => 1
  | t :: ts => JS.add (JS.Math_max (id t) (map id ts)) 1
  end.

(** The operations below read [tasks] as a [Task[]].  They return [None]
    when the variable does not hold one (see [loadTasks]): what the script
    does then depends on dynamic typing and is not part of the embedding.
    [renderTasks] rebuilds the list element from [tasks] and writes no
    field of the state. *)
Definition addTask (now : string) (st : State) : option State :=
  let text := JS.trim (taskInput st) in
  if String.eqb text EmptyString then Some st
  else
    match as_tasks (tasks st) with
    | None => None
    | Some ts =>
        let newTask := mkTask (getNextId ts) text false now in
        Some (set_taskInput EmptyString
                (saveTasks (set_tasks (tasks_value (ts ++ [newTask])) st)))
    end.

(** [tasks.find(t => t.id === id)] followed by the update in place of the
    task found; [None] when no task has the id. *)
Fixpoint toggle_found (id0 : Z) (ts : list Task) : option (list Task) :=
  match ts with
  | [] => None
  | t :: r =>
      if id t =? id0 then Some (set_completed (negb (completed t)) t :: r)
      else option_map (cons t) (toggle_found id0 r)
  end.

Definition toggleTask (id0 : Z) (st : State) : option State :=
  match as_tasks (tasks st) with
  | None => None
  | Some ts =>
      match toggle_found id0 ts with
      | Some ts' => Some (saveTasks (set_tasks (tasks_value ts') st))
      | None => Some st
      end
  end.

Definition deleteTask (id0 : Z) (st : State) : option State :=
  match as_tasks (tasks st) with
  | None => None
  | Some ts =>
      Some (saveTasks
              (set_tasks
                 (tasks_value (filter (fun t => negb (id t =? id0)) ts)) st))
  end.

Definition clearCompleted (st : State) : option State :=
  match as_tasks (tasks st) with
  | None => None
  | Some ts =>
      Some (saveTasks
              (set_tasks
                 (tasks_value (filter (fun t => negb (completed t)) ts)) st))
  end.

(** [init]: the tasks are loaded once, when the script starts. *)
Definition init (stored : option string) : State := loadTasks (startup stored).

End Web.

(** ** Notions of the specification *)

Module Spec.

(** [has_char c s]: the character occurs in the string. *)
Fixpoint has_char (c : ascii) (s : string) : bool :=
  match s with
  | EmptyString => false
  | String a r => Ascii.eqb a c || has_char c r
  end.

(** The line of one task in a listing: [[<marker>] <id> - <text>]. *)
Definition task_line (t : Todo.Task) : string :=
  "[" ++ (if Todo.completed t then "x" else " ") ++ "] "
      ++ JS.Number_toString (Todo.id t) ++ " - " ++ Todo.text t.

(** The message of the empty listing. *)
Definition no_tasks : string := "No tasks yet.".

(** Pairwise distinct ids. *)
Definition unique_ids (C : list Todo.Task) : Prop := NoDup (map Todo.id C).

(** The tokens of a line: its maximal runs of characters other than the
    space. *)
Definition tokens (line : string) : list string :=
  filter (fun w => negb (String.eqb w EmptyString)) (JS.split " " line).

(** Every id is a safe integer. *)
Definition safe_ids (C : list Todo.Task) : Prop :=
  forall x, In x (map Todo.id C) -> JS.safe x.

(** The page holds a task array with pairwise distinct ids. *)
Definition page_unique_ids (st : Web.State) : Prop :=
  exists C, Web.as_tasks (Web.tasks st) = Some C /\ unique_ids C.



(** A collection whose only id is 2^53. *)
Definition at_two53 : list Todo.Task :=
  [Todo.mkTask JS.two53 "buy milk" false "2024-01-01T10:00:00.000Z"].

(** The console after [add buy milk] and [add walk dog]. *)
Definition two_tasks : Cli.State :=
  Cli.run [("2024-01-01T10:00:00.000Z", "add buy milk");
           ("2024-01-01T10:01:00.000Z", "add walk dog")] Cli.initial.

End Spec.

(** ** The list element of the page and the events [init] listens to *)

Module Page.

Import Todo.

(** What [renderTasks] puts in a list item for a task: the classes of the
    item, the state of its checkbox, the id its change listener passes to
    [toggleTask], the text shown and the id its delete button passes to
    [deleteTask]. *)
Record task_item := mkItem {
  classes : list string;
  checked : bool;
  on_change : Z;
  textContent : string;
  on_delete : Z
}.

(** A child of the list element. *)
Inductive li :=
| Empty_message (className text : string)
| Task_item (item : task_item).

(** [renderTasks]: the list element is emptied, then filled from [tasks];
    the result is its new children. *)
Definition renderTasks (tasks : list Task) : list li :=
  if (List.length tasks =? 0)%nat then
    [Empty_message "empty-message" "No tasks yet."]
  else
    map (fun task =>
           Task_item
             (mkItem (if completed task then ["task-item"; "completed"]
                      else ["task-item"])
                     (completed task) (id task) (text task) (id task)))
        tasks.

(** What the page reacts to: the user edits the text field, clicks the add
    button, presses a key in the text field, changes the checkbox or clicks
    the delete button of an item (each with the id its listener carries),
    or clicks the clear-completed button. *)
Inductive event :=
| Edit (value : string)
| AddClick
| KeyPress (key : string)
| CheckboxChange (id : Z)
| DeleteClick (id : Z)
| ClearCompletedClick.

(** The listeners that [init] and [renderTasks] register. *)
Definition handle (now : string) (e : event) (st : Web.State)
  : option Web.State :=
  match e with
  | Edit value => Some (Web.set_taskInput value st)
  | AddClick => Web.addTask now st
  | KeyPress key =>
      if String.eqb key "Enter" then Web.addTask now st else Some st
  | CheckboxChange i => Web.toggleTask i st
  | DeleteClick i => Web.deleteTask i st
  | ClearCompletedClick => Web.clearCompleted st
  end.

(** One event at a time, each with the clock reading at its time. *)
Fixpoint session (events : list (string * event)) (st : Web.State)
  : option Web.State :=
  match events with
  | [] => Some st
  | (now, e) :: rest =>
      match handle now e st with
      | Some st' => session rest st'
      | None => None
      end
  end.

End Page.

(** ** Invariants and relations used by the further properties *)

Module Inv.

(** The keyword [processCommand] dispatches on. *)
Definition keyword (line : string) : string :=
  JS.toLowerCase (hd EmptyString (JS.split " " (JS.trim line))).

(** The ids 1, 2, ..., n. *)
Definition numbering (n : nat) : list Z := map Z.of_nat (seq 1 n).

(** [C'] continues [C]: it is at least as long, and at every position of
    [C] the task has the same id, text and createdAt and is still completed
    if it was. *)
Definition continues (C C' : list Todo.Task) : Prop :=
  (List.length C <= List.length C')%nat
  /\ forall k t, nth_error C k = Some t ->
       exists t', nth_error C' k = Some t'
                  /\ Todo.id t' = Todo.id t
                  /\ Todo.text t' = Todo.text t
                  /\ Todo.createdAt t' = Todo.createdAt t
                  /\ (Todo.completed t = true -> Todo.completed t' = true).

(** Nothing but white space. *)
Fixpoint all_white_space (s : string) : bool :=
  match s with
  | EmptyString => true
  | String c r => JS.is_white_space c && all_white_space r
  end.

(** A text as the console stores it: not empty, no white space at its end. *)
Definition console_text (s : string) : Prop :=
  s <> EmptyString /\ JS.trimEnd s = s.

(** A text as the page stores it: not empty, no white space at either end. *)
Definition page_text (s : string) : Prop :=
  s <> EmptyString /\ JS.trim s = s.

(** The page holds a task array with distinct ids and trimmed texts. *)
Definition page_ok (st : Web.State) : Prop :=
  exists C, Web.as_tasks (Web.tasks st) = Some C
            /\ Spec.unique_ids C
            /\ forall t, In t C -> page_text (Todo.text t).

(** The same, with every id of magnitude at most [b]. *)
Definition page_ok_below (b : Z) (st : Web.State) : Prop :=
  0 <= b
  /\ exists C, Web.as_tasks (Web.tasks st) = Some C
               /\ Spec.unique_ids C
               /\ (forall t, In t C -> page_text (Todo.text t))
               /\ (forall t, In t C -> Z.abs (Todo.id t) <= b).


(** Loading what the store holds gives the tasks the page holds. *)
Definition reload_same (st : Web.State) : Prop :=
  Web.tasks (Web.init (Web.localStorage st)) = Web.tasks st.

(** The task at position [k] with its completed flag inverted. *)
Definition toggle_at (k : nat) (C : list Todo.Task) : list Todo.Task :=
  match nth_error C k with
  | Some t =>
      (firstn k C
         ++ Todo.set_completed (negb (Todo.completed t)) t :: skipn (S k) C)%list
  | None => C
  end.

(** The list without its position [k]. *)
Definition remove_at (k : nat) (C : list Todo.Task) : list Todo.Task :=
  (firstn k C ++ skipn (S k) C)%list.

(** A page with one open and one completed task. *)
Definition sample_tasks : list Todo.Task :=
  [Todo.mkTask 1 "buy milk" false "2024-01-01T10:00:00.000Z";
   Todo.mkTask 2 "walk dog" true "2024-01-01T10:01:00.000Z"].

Definition sample_page : Web.State :=
  Web.set_tasks (Web.tasks_value sample_tasks) (Web.startup None).

End Inv.

(** * Properties *)

(** ** Facts about the built-ins *)

Module JSFacts.

Lemma Math_max_ge x xs : x <= JS.Math_max x xs.
Proof.
  unfold JS.Math_max. revert x.
  induction xs as [|y ys IH]; intro x; simpl; [lia|].
  specialize (IH (Z.max x y)). lia.
Qed.

Lemma Math_max_upper x xs y : In y (x :: xs) -> y <= JS.Math_max x xs.
Proof.
  unfold JS.Math_max. revert x.
  induction xs as [|z zs IH]; intro x; simpl.
  - intros [->|[]]. lia.
  - intros [->|[->|H]].
    + pose proof (Math_max_ge (Z.max y z) zs) as G.
      unfold JS.Math_max in G. lia.
    + pose proof (Math_max_ge (Z.max x y) zs) as G.
      unfold JS.Math_max in G. lia.
    + apply IH. now right.
Qed.

Lemma Math_max_in x xs : In (JS.Math_max x xs) (x :: xs).
Proof.
  unfold JS.Math_max. revert x.
  induction xs as [|z zs IH]; intro x; simpl; [now left|].
  destruct (IH (Z.max x z)) as [E|E].
  - rewrite <- E. destruct (Z.max_spec x z) as [[_ ->]|[_ ->]]; auto.
  - now right; right.
Qed.

(** Up to 2^53 in magnitude an integer is its own double. *)
Lemma to_double_exact z : Z.abs z <= JS.two53 -> JS.to_double z = z.
Proof.
  intro H. unfold JS.to_double.
  destruct (Z.leb_spec (Z.abs z) JS.two53); [reflexivity|lia].
Qed.

(** Adding 1 to a safe integer is exact. *)
Lemma add_one_exact z : JS.safe z -> JS.add z 1 = z + 1.
Proof.
  unfold JS.safe, JS.add. intro H. apply to_double_exact. lia.
Qed.

End JSFacts.

Module StringFacts.

Import Spec.

Lemma has_char_app c a b :
  has_char c (a ++ b) = has_char c a || has_char c b.
Proof.
  induction a as [|x a IH]; simpl; [reflexivity|].
  now rewrite IH, orb_assoc.
Qed.

Lemma split_no_sep sep a : has_char sep a = false -> JS.split sep a = [a].
Proof.
  induction a as [|x a IH]; simpl; [reflexivity|].
  intro H. apply orb_false_iff in H. destruct H as [Hx Ha].
  rewrite Hx, (IH Ha). reflexivity.
Qed.

Lemma split_app_sep sep a b :
  has_char sep a = false ->
  JS.split sep (a ++ String sep b) = a :: JS.split sep b.
Proof.
  induction a as [|x a IH]; simpl.
  - intros _. now rewrite Ascii.eqb_refl.
  - intro H. apply orb_false_iff in H. destruct H as [Hx Ha].
    rewrite Hx, (IH Ha). reflexivity.
Qed.

(** Splitting what [join] built gives the parts back. *)
Lemma split_join sep parts :
  parts <> [] ->
  (forall p, In p parts -> has_char sep p = false) ->
  JS.split sep (JS.join (String sep EmptyString) parts) = parts.
Proof.
  unfold JS.join.
  induction parts as [|p ps IH]; [congruence|]. intros _ H.
  destruct ps as [|q qs].
  - simpl. apply split_no_sep. apply H. now left.
  - change (String.concat (String sep EmptyString) (p :: q :: qs))
      with (p ++ String sep (String.concat (String sep EmptyString) (q :: qs))).
    rewrite split_app_sep by (apply H; now left).
    f_equal. apply IH; [congruence|]. intros r Hr. apply H. now right.
Qed.

Lemma split_nonempty sep s : JS.split sep s <> [].
Proof.
  destruct s as [|c s]; simpl; [congruence|].
  destruct (Ascii.eqb c sep); [congruence|].
  destruct (JS.split sep s); congruence.
Qed.

(** Joining what [split] cut gives the string back. *)
Lemma join_split sep s :
  JS.join (String sep EmptyString) (JS.split sep s) = s.
Proof.
  unfold JS.join. induction s as [|c s IH]; [reflexivity|]. simpl.
  pose proof (split_nonempty sep s) as NE.
  destruct (JS.split sep s) as [|h t] eqn:E; [congruence|].
  destruct (Ascii.eqb_spec c sep) as [->|N].
  - change (String.concat (String sep EmptyString) (EmptyString :: h :: t))
      with (String sep (String.concat (String sep EmptyString) (h :: t))).
    now rewrite IH.
  - destruct t as [|h' t']; simpl in *; now rewrite <- IH.
Qed.

Lemma uint_digits_no_char c d :
  JS.is_digit c = false -> has_char c (NilEmpty.string_of_uint d) = false.
Proof.
  intro H.
  induction d; cbn [NilEmpty.string_of_uint has_char]; rewrite ?IHd;
    try reflexivity;
    match goal with
    | |- (Ascii.eqb ?a c || false) = false =>
        destruct (Ascii.eqb_spec a c) as [<-|_]; [discriminate H|reflexivity]
    end.
Qed.

(** The decimal text of an integer holds digits and at most a minus sign. *)
Lemma Number_toString_no_char c n :
  JS.is_digit c = false -> c <> "-"%char ->
  has_char c (JS.Number_toString n) = false.
Proof.
  intros H N. unfold JS.Number_toString.
  assert (U : forall d, has_char c (NilZero.string_of_uint d) = false).
  { intro d. destruct d; try apply (uint_digits_no_char c _ H).
    cbn [NilZero.string_of_uint has_char].
    destruct (Ascii.eqb_spec "0" c) as [<-|_]; [discriminate H|easy]. }
  destruct (Z.to_int n); cbn [NilZero.string_of_int has_char]; [apply U|].
  rewrite U. destruct (Ascii.eqb_spec "-" c); [congruence|reflexivity].
Qed.

End StringFacts.

(** ** JSON text *)

Module JSONFacts.

Lemma append_assoc (a b c : string) : ((a ++ b) ++ c = a ++ (b ++ c))%string.
Proof. induction a as [|x a IH]; simpl; [reflexivity|now rewrite IH]. Qed.

(** *** String literals *)

Lemma parse_string_escape c rest :
  JSON.parse_string (JSON.escape c ++ rest)
  = JSON.cons_char c (JSON.parse_string rest).
Proof.
  destruct c as [[] [] [] [] [] [] [] []]; reflexivity.
Qed.

Lemma parse_string_quote_body s rest :
  JSON.parse_string (JSON.quote_body s ++ String JSON.DQUOTE rest)
  = Some (s, rest).
Proof.
  induction s as [|c s IH]; [reflexivity|].
  cbn [JSON.quote_body]. rewrite append_assoc, parse_string_escape, IH.
  reflexivity.
Qed.

(** *** Numbers *)

Lemma uint_digits d c r :
  NilEmpty.string_of_uint d = String c r -> JS.is_digit c = true.
Proof. destruct d; simpl; intros [= <- _]; reflexivity. Qed.

Lemma span_digits_uint d rest :
  (forall c r, rest = String c r -> JS.is_digit c = false) ->
  JS.span_digits (NilEmpty.string_of_uint d ++ rest)
  = (NilEmpty.string_of_uint d, rest).
Proof.
  intro H. induction d;
    try (cbn [NilEmpty.string_of_uint append JS.span_digits];
         change (JS.is_digit _) with true; cbv iota; now rewrite IHd).
  simpl. destruct rest as [|c r]; [reflexivity|].
  simpl. now rewrite (H c r eq_refl).
Qed.

Lemma to_uint_normal p d : Pos.to_uint p <> D0 d.
Proof.
  assert (E : Pos.to_uint p = unorm (Pos.to_uint p)).
  { rewrite <- (DecimalPos.Unsigned.to_of (Pos.to_uint p)).
    now rewrite DecimalPos.Unsigned.of_to. }
  intro H. rewrite H in E.
  pose proof (DecimalPos.Unsigned.to_uint_nonzero p) as NZ. rewrite H in NZ.
  unfold unorm in E.
  destruct (nzhead (D0 d)) eqn:N; try discriminate E.
  - now rewrite E in NZ.
  - now apply nzhead_nonzero in N.
Qed.

Lemma int_digits_ok_uint p :
  JSON.int_digits_ok (NilEmpty.string_of_uint (Pos.to_uint p)) = true.
Proof.
  pose proof (DecimalPos.Unsigned.to_uint_nonnil p) as NN.
  destruct (Pos.to_uint p) as [|d|d|d|d|d|d|d|d|d|d] eqn:E;
    try congruence;
    try (cbn [NilEmpty.string_of_uint JSON.int_digits_ok];
         now destruct (NilEmpty.string_of_uint d)).
  exfalso. exact (to_uint_normal p d E).
Qed.

Lemma digits_value_uint p :
  JS.digits_value (NilEmpty.string_of_uint (Pos.to_uint p)) = Some (Zpos p).
Proof.
  unfold JS.digits_value.
  pose proof (DecimalPos.Unsigned.to_uint_nonnil p) as NN.
  pose proof (NilZero.usu (Pos.to_uint p) NN) as U.
  assert (S : NilZero.string_of_uint (Pos.to_uint p)
              = NilEmpty.string_of_uint (Pos.to_uint p)).
  { unfold NilZero.string_of_uint. now destruct (Pos.to_uint p). }
  rewrite S in U. rewrite U. cbn [option_map]. f_equal.
  unfold Z.of_uint. now rewrite DecimalPos.Unsigned.of_to.
Qed.

Lemma string_of_uint_eq p :
  NilZero.string_of_uint (Pos.to_uint p)
  = NilEmpty.string_of_uint (Pos.to_uint p).
Proof.
  pose proof (DecimalPos.Unsigned.to_uint_nonnil p).
  unfold NilZero.string_of_uint. now destruct (Pos.to_uint p).
Qed.

Lemma read_minus_digit c r :
  JS.is_digit c = true -> JSON.read_minus (String c r) = (false, String c r).
Proof.
  intro D. unfold JSON.read_minus.
  destruct (Ascii.eqb_spec c "-") as [->|_]; [discriminate D|reflexivity].
Qed.

Lemma read_tail rest :
  JSON.ends_number rest = true ->
  JSON.read_fraction rest = Some (EmptyString, rest)
  /\ JSON.read_exponent rest = Some (0, rest).
Proof.
  destruct rest as [|c r]; [now split|]. cbn [JSON.ends_number].
  intro H. apply negb_true_iff in H. repeat (apply orb_false_iff in H; destruct H as [H ?]).
  unfold JSON.read_fraction, JSON.read_exponent.
  now repeat match goal with E : _ = false |- _ => rewrite E; clear E end.
Qed.

(** Digits followed by something that ends a number are read as an integer. *)
Lemma parse_number_digits ds rest :
  JS.span_digits (ds ++ rest) = (ds, rest) ->
  JSON.int_digits_ok ds = true ->
  JSON.ends_number rest = true ->
  forall neg m, JS.digits_value ds = Some m ->
  JSON.parse_number ((if neg : bool then "-"%string else EmptyString) ++ ds ++ rest)
  = Some (JSON.Num (if neg then - m else m) 0, rest).
Proof.
  intros SP OK E neg m V.
  destruct (read_tail rest E) as [F X].
  assert (M : JSON.read_minus ((if neg : bool then "-"%string else EmptyString) ++ ds ++ rest)
              = (neg, ds ++ rest)).
  { destruct neg; [reflexivity|]. cbn [append].
    destruct ds as [|c r]; [discriminate OK|].
    cbn [append]. apply read_minus_digit.
    cbn [append JS.span_digits] in SP.
    destruct (JS.is_digit c); [reflexivity|discriminate SP]. }
  unfold JSON.parse_number. rewrite M, SP, OK. cbn [negb].
  rewrite F, X.
  assert (A : (ds ++ EmptyString)%string = ds).
  { clear. induction ds; simpl; congruence. }
  rewrite A, V. reflexivity.
Qed.

Lemma parse_number_toString n rest :
  JSON.ends_number rest = true ->
  JSON.parse_number (JS.Number_toString n ++ rest) = Some (JSON.Num n 0, rest).
Proof.
  intro E. unfold JS.Number_toString.
  assert (D : forall c r, rest = String c r -> JS.is_digit c = false).
  { intros c r ->. cbn [JSON.ends_number] in E.
    apply negb_true_iff in E.
    now repeat (apply orb_false_iff in E; destruct E as [E ?]). }
  destruct n as [|p|p]; cbn [Z.to_int NilZero.string_of_int].
  - apply (parse_number_digits "0" rest) with (neg := false) (m := 0);
      try reflexivity; try assumption.
    destruct rest as [|c r]; [reflexivity|].
    cbn [append JS.span_digits]. change (JS.is_digit "0") with true. cbv iota.
    cbn [JS.span_digits]. now rewrite (D c r eq_refl).
  - rewrite string_of_uint_eq.
    apply (parse_number_digits _ rest (span_digits_uint _ _ D)
             (int_digits_ok_uint p) E false). apply digits_value_uint.
  - rewrite string_of_uint_eq.
    change (String "-" (NilEmpty.string_of_uint (Pos.to_uint p)) ++ rest)%string
      with ("-" ++ NilEmpty.string_of_uint (Pos.to_uint p) ++ rest)%string.
    apply (parse_number_digits _ rest (span_digits_uint _ _ D)
             (int_digits_ok_uint p) E true (Zpos p)). apply digits_value_uint.
Qed.

Lemma Number_toString_head n :
  exists c r, JS.Number_toString n = String c r
              /\ (JS.is_digit c = true \/ c = "-"%char).
Proof.
  unfold JS.Number_toString.
  destruct n as [|p|p]; cbn [Z.to_int NilZero.string_of_int].
  - exists "0"%char, EmptyString. now split; [|left].
  - rewrite string_of_uint_eq.
    destruct (NilEmpty.string_of_uint (Pos.to_uint p)) as [|c r] eqn:S.
    + pose proof (int_digits_ok_uint p) as O. now rewrite S in O.
    + exists c, r. split; [reflexivity|left]. now apply uint_digits in S.
  - eexists _, _. split; [reflexivity|now right].
Qed.

(** *** Values *)

Lemma parse_value_S f s :
  JSON.parse_value (S f) s =
  match JSON.skip_ws s with
  | EmptyString => None
  | String c r =>
      if Ascii.eqb c "[" then
        match JSON.strip_prefix "]" (JSON.skip_ws r) with
        | Some r' => Some (JSON.Arr [], r')
        | None => JSON.parse_elements f r []
        end
      else if Ascii.eqb c "{" then
        match JSON.strip_prefix "}" (JSON.skip_ws r) with
        | Some r' => Some (JSON.Obj [], r')
        | None => JSON.parse_members f r []
        end
      else if Ascii.eqb c JSON.DQUOTE then
        match JSON.parse_string r with
        | Some (body, r') => Some (JSON.Str body, r')
        | None => None
        end
      else if Ascii.eqb c "t" then
        option_map (fun r' => (JSON.Bool true, r')) (JSON.strip_prefix "rue" r)
      else if Ascii.eqb c "f" then
        option_map (fun r' => (JSON.Bool false, r')) (JSON.strip_prefix "alse" r)
      else if Ascii.eqb c "n" then
        option_map (fun r' => (JSON.Null, r')) (JSON.strip_prefix "ull" r)
      else JSON.parse_number (String c r)
  end.
Proof. reflexivity. Qed.

Lemma parse_elements_S f s acc :
  JSON.parse_elements (S f) s acc =
  match JSON.parse_value f s with
  | None => None
  | Some (x, r) =>
      match JSON.skip_ws r with
      | EmptyString => None
      | String c r' =>
          if Ascii.eqb c "," then JSON.parse_elements f r' (acc ++ [x])
          else if Ascii.eqb c "]" then Some (JSON.Arr (acc ++ [x]), r')
          else None
      end
  end.
Proof. reflexivity. Qed.

Lemma parse_members_S f s acc :
  JSON.parse_members (S f) s acc =
  match JSON.strip_prefix (String JSON.DQUOTE EmptyString) (JSON.skip_ws s) with
  | None => None
  | Some r =>
      match JSON.parse_string r with
      | None => None
      | Some (k, r1) =>
          match JSON.strip_prefix ":" (JSON.skip_ws r1) with
          | None => None
          | Some r2 =>
              match JSON.parse_value f r2 with
              | None => None
              | Some (x, r3) =>
                  match JSON.skip_ws r3 with
                  | EmptyString => None
                  | String c r4 =>
                      if Ascii.eqb c "," then
                        JSON.parse_members f r4 (JSON.obj_set k x acc)
                      else if Ascii.eqb c "}" then
                        Some (JSON.Obj (JSON.obj_set k x acc), r4)
                      else None
                  end
              end
          end
      end
  end.
Proof. reflexivity. Qed.

Lemma quote_app s rest :
  (JSON.quote s ++ rest)%string
  = String JSON.DQUOTE (JSON.quote_body s ++ String JSON.DQUOTE rest).
Proof. unfold JSON.quote. cbn [append]. now rewrite append_assoc. Qed.

Lemma parse_value_quote f s rest :
  JSON.parse_value (S f) (JSON.quote s ++ rest) = Some (JSON.Str s, rest).
Proof.
  rewrite parse_value_S, quote_app. cbn [JSON.skip_ws].
  change (JSON.is_ws JSON.DQUOTE) with false. cbv iota.
  change (Ascii.eqb JSON.DQUOTE "[") with false.
  change (Ascii.eqb JSON.DQUOTE "{") with false.
  rewrite Ascii.eqb_refl. cbv iota.
  now rewrite parse_string_quote_body.
Qed.

Lemma parse_value_bool f (b : bool) rest :
  JSON.parse_value (S f) ((if b then "true" else "false") ++ rest)
  = Some (JSON.Bool b, rest).
Proof. destruct b; reflexivity. Qed.

Lemma parse_value_number f n rest :
  JSON.ends_number rest = true ->
  JSON.parse_value (S f) (JS.Number_toString n ++ rest)
  = Some (JSON.Num n 0, rest).
Proof.
  intro E. rewrite parse_value_S.
  rewrite <- (parse_number_toString n rest E).
  destruct (Number_toString_head n) as [c [r [-> H]]]. cbn [append].
  assert (W : JSON.is_ws c = false /\ Ascii.eqb c "[" = false
              /\ Ascii.eqb c "{" = false /\ Ascii.eqb c JSON.DQUOTE = false
              /\ Ascii.eqb c "t" = false /\ Ascii.eqb c "f" = false
              /\ Ascii.eqb c "n" = false).
  { destruct H as [H| ->]; [|repeat split; reflexivity].
    clear -H.
    destruct c as [[] [] [] [] [] [] [] []]; try discriminate H;
      repeat split; reflexivity. }
  destruct W as (W1 & W2 & W3 & W4 & W5 & W6 & W7).
  cbn [JSON.skip_ws]. rewrite W1, W2, W3, W4, W5, W6, W7. reflexivity.
Qed.

(** One member [key:value] of an object, followed by a comma or by the
    closing brace. *)
Lemma parse_members_comma f k x xtext rest acc :
  JSON.parse_value f (xtext ++ "," ++ rest) = Some (x, ("," ++ rest)%string) ->
  JSON.parse_members (S f)
    (JSON.quote k ++ ":" ++ xtext ++ "," ++ rest) acc
  = JSON.parse_members f rest (JSON.obj_set k x acc).
Proof.
  intro V. rewrite parse_members_S, quote_app.
  cbn [JSON.skip_ws]. change (JSON.is_ws JSON.DQUOTE) with false. cbv iota.
  cbn [JSON.strip_prefix]. rewrite Ascii.eqb_refl.
  rewrite parse_string_quote_body. cbn [append JSON.skip_ws].
  change (JSON.is_ws ":") with false. cbv iota.
  cbn [JSON.strip_prefix]. rewrite Ascii.eqb_refl.
  cbn [append] in V. rewrite V. reflexivity.
Qed.

Lemma parse_members_brace f k x xtext rest acc :
  JSON.parse_value f (xtext ++ "}" ++ rest) = Some (x, ("}" ++ rest)%string) ->
  JSON.parse_members (S f)
    (JSON.quote k ++ ":" ++ xtext ++ "}" ++ rest) acc
  = Some (JSON.Obj (JSON.obj_set k x acc), rest).
Proof.
  intro V. rewrite parse_members_S, quote_app.
  cbn [JSON.skip_ws]. change (JSON.is_ws JSON.DQUOTE) with false. cbv iota.
  cbn [JSON.strip_prefix]. rewrite Ascii.eqb_refl.
  rewrite parse_string_quote_body. cbn [append JSON.skip_ws].
  change (JSON.is_ws ":") with false. cbv iota.
  cbn [JSON.strip_prefix]. rewrite Ascii.eqb_refl.
  cbn [append] in V. rewrite V. reflexivity.
Qed.

(** *** Task arrays *)

Lemma task_text t rest :
  (JSON.stringify (Web.task_value t) ++ rest)%string
  = String "{"
      (JSON.quote "id" ++ ":" ++ JS.Number_toString (Todo.id t) ++ ","
       ++ JSON.quote "text" ++ ":" ++ JSON.quote (Todo.text t) ++ ","
       ++ JSON.quote "completed" ++ ":"
       ++ (if Todo.completed t then "true" else "false") ++ ","
       ++ JSON.quote "createdAt" ++ ":" ++ JSON.quote (Todo.createdAt t)
       ++ "}" ++ rest).
Proof.
  unfold Web.task_value.
  cbn [JSON.stringify map JS.join String.concat JSON.number_text Z.eqb].
  rewrite !append_assoc. reflexivity.
Qed.

Lemma parse_value_task f t rest :
  JSON.parse_value (S (S (S (S (S (S f)))))) (JSON.stringify (Web.task_value t) ++ rest)
  = Some (Web.task_value t, rest).
Proof.
  rewrite task_text, parse_value_S. cbn [JSON.skip_ws].
  change (JSON.is_ws "{") with false. cbv iota.
  change (Ascii.eqb "{" "[") with false. change (Ascii.eqb "{" "{") with true.
  cbv iota. rewrite quote_app. cbn [JSON.skip_ws].
  change (JSON.is_ws JSON.DQUOTE) with false. cbv iota.
  cbn [JSON.strip_prefix]. change (Ascii.eqb "}" JSON.DQUOTE) with false.
  cbv iota. rewrite <- quote_app.
  rewrite (parse_members_comma _ "id" (JSON.Num (Todo.id t) 0))
    by (apply parse_value_number; reflexivity).
  rewrite (parse_members_comma _ "text" (JSON.Str (Todo.text t)))
    by apply parse_value_quote.
  rewrite (parse_members_comma _ "completed" (JSON.Bool (Todo.completed t)))
    by apply parse_value_bool.
  rewrite (parse_members_brace _ "createdAt" (JSON.Str (Todo.createdAt t)))
    by apply parse_value_quote.
  reflexivity.
Qed.

Lemma parse_elements_tasks ts : forall t f acc rest,
  (List.length ts + 6 < f)%nat ->
  JSON.parse_elements f
    (JS.join "," (map JSON.stringify (map Web.task_value (t :: ts)))
       ++ "]" ++ rest) acc
  = Some (JSON.Arr (acc ++ map Web.task_value (t :: ts)), rest).
Proof.
  induction ts as [|u us IH]; intros t f acc rest Hf.
  - destruct f as [|[|[|[|[|[|[|g]]]]]]]; cbn [List.length] in Hf; try lia.
    rewrite parse_elements_S. cbn [map JS.join String.concat].
    rewrite parse_value_task. reflexivity.
  - destruct f as [|[|[|[|[|[|[|g]]]]]]]; cbn [List.length] in Hf; try lia.
    rewrite parse_elements_S.
    change (JS.join "," (map JSON.stringify (map Web.task_value (t :: u :: us))))
      with (JSON.stringify (Web.task_value t) ++ ","
            ++ JS.join "," (map JSON.stringify (map Web.task_value (u :: us))))%string.
    rewrite !append_assoc, parse_value_task.
    cbn [append JSON.skip_ws]. change (JSON.is_ws ",") with false. cbv iota.
    rewrite Ascii.eqb_refl.
    change (acc ++ map Web.task_value (t :: u :: us))%list
      with (acc ++ [Web.task_value t] ++ map Web.task_value (u :: us))%list.
    rewrite app_assoc.
    apply (IH u _ (acc ++ [Web.task_value t])%list rest). lia.
Qed.

Lemma parse_value_tasks ts f rest :
  (List.length ts + 7 < f)%nat ->
  JSON.parse_value f (JSON.stringify (Web.tasks_value ts) ++ rest)
  = Some (Web.tasks_value ts, rest).
Proof.
  intro Hf. destruct f as [|f]; [lia|]. rewrite parse_value_S.
  unfold Web.tasks_value. cbn [JSON.stringify].
  destruct ts as [|t ts]; [reflexivity|].
  rewrite append_assoc. cbn [append JSON.skip_ws].
  change (JSON.is_ws "[") with false. cbv iota. rewrite Ascii.eqb_refl.
  rewrite append_assoc.
  assert (H : JSON.strip_prefix "]"
                (JSON.skip_ws
                   (JS.join "," (map JSON.stringify (map Web.task_value (t :: ts)))
                      ++ "]" ++ rest)) = None).
  { cbn [map JS.join String.concat].
    destruct (map JSON.stringify (map Web.task_value ts));
      [|rewrite append_assoc]; rewrite task_text; reflexivity. }
  rewrite H. apply parse_elements_tasks. cbn [List.length] in Hf. lia.
Qed.

(** *** The fuel of [parse] is enough *)

Lemma skip_ws_length s : (String.length (JSON.skip_ws s) <= String.length s)%nat.
Proof.
  induction s as [|c s IH]; simpl; [lia|].
  destruct (JSON.is_ws c); simpl; lia.
Qed.

Lemma strip_prefix_length p : forall s r,
  JSON.strip_prefix p s = Some r -> (String.length r + String.length p = String.length s)%nat.
Proof.
  induction p as [|a p IH]; intros s r; simpl.
  - intros [= ->]. lia.
  - destruct s as [|b s]; [discriminate|].
    destruct (Ascii.eqb a b); [|discriminate].
    intro H. apply IH in H. simpl. lia.
Qed.

Lemma cons_char_length c o b r n :
  JSON.cons_char c o = Some (b, r) ->
  (forall b' r', o = Some (b', r') -> (String.length r' < n)%nat) ->
  (String.length r < n)%nat.
Proof.
  destruct o as [[b' r']|]; simpl; [|discriminate].
  intros [= _ <-] H. now apply (H b').
Qed.

Lemma parse_string_length n : forall s b r,
  (String.length s <= n)%nat ->
  JSON.parse_string s = Some (b, r) -> (String.length r < String.length s)%nat.
Proof.
  induction n as [|n IH]; intros s b r L.
  - destruct s; [discriminate|simpl in L; lia].
  - destruct s as [|c s]; [discriminate|]. cbn [JSON.parse_string].
    simpl in L.
    destruct (Ascii.eqb c JSON.DQUOTE); [intros [= _ ->]; simpl; lia|].
    destruct (Ascii.eqb c JSON.BACKSLASH).
    + destruct s as [|e r1]; [discriminate|].
      destruct (Ascii.eqb e "u").
      * destruct r1 as [|h1 [|h2 [|h3 [|h4 r2]]]]; try discriminate.
        destruct (JSON.hex4 h1 h2 h3 h4); [|discriminate].
        intro H. eapply cons_char_length in H; [exact H|].
        intros b' r' E. apply IH in E; simpl in *; lia.
      * destruct (JSON.unescape e); [|discriminate].
        intro H. eapply cons_char_length in H; [exact H|].
        intros b' r' E. apply IH in E; simpl in *; lia.
    + destruct (N_of_ascii c <? 32)%N; [discriminate|].
      intro H. eapply cons_char_length in H; [exact H|].
      intros b' r' E. apply IH in E; simpl in *; lia.
Qed.

Lemma span_digits_length s :
  (String.length (snd (JS.span_digits s)) <= String.length s)%nat.
Proof.
  induction s as [|c s IH]; simpl; [lia|].
  destruct (JS.is_digit c); [|simpl; lia].
  destruct (JS.span_digits s); simpl in *. lia.
Qed.

Lemma read_minus_length s :
  (String.length (snd (JSON.read_minus s)) <= String.length s)%nat.
Proof.
  destruct s as [|c r]; simpl; [lia|].
  destruct (Ascii.eqb c "-"); simpl; lia.
Qed.

Lemma read_fraction_length s fs r :
  JSON.read_fraction s = Some (fs, r) -> (String.length r <= String.length s)%nat.
Proof.
  unfold JSON.read_fraction. destruct s as [|c s]; [intros [= _ <-]; lia|].
  destruct (Ascii.eqb c ".").
  - pose proof (span_digits_length s) as L.
    destruct (JS.span_digits s) as [ds r']. simpl in L.
    destruct (String.eqb ds EmptyString); [discriminate|].
    intros [= _ <-]. simpl. lia.
  - intros [= _ <-]. lia.
Qed.

Lemma read_exponent_length s x r :
  JSON.read_exponent s = Some (x, r) -> (String.length r <= String.length s)%nat.
Proof.
  unfold JSON.read_exponent. destruct s as [|c s]; [intros [= _ <-]; lia|].
  destruct (Ascii.eqb c "e" || Ascii.eqb c "E"); [|intros [= _ <-]; lia].
  destruct s as [|g r0].
  - destruct (JS.span_digits EmptyString) as [es r2] eqn:SP.
    simpl in SP. injection SP as <- <-. discriminate.
  - destruct (Ascii.eqb g "-"); [|destruct (Ascii.eqb g "+")];
      (pose proof (span_digits_length r0) as L0;
       pose proof (span_digits_length (String g r0)) as L1;
       match goal with
       | |- context [JS.span_digits ?z] =>
           destruct (JS.span_digits z) as [es r2]
       end;
       destruct (JS.digits_value es); [|discriminate];
       intros [= _ <-]; simpl in *; lia).
Qed.

Lemma parse_number_length s v r :
  JSON.parse_number s = Some (v, r) -> (String.length r <= String.length s)%nat.
Proof.
  unfold JSON.parse_number.
  pose proof (read_minus_length s) as L1.
  destruct (JSON.read_minus s) as [neg s1]. simpl in L1.
  pose proof (span_digits_length s1) as L2.
  destruct (JS.span_digits s1) as [ds s2]. simpl in L2.
  destruct (negb (JSON.int_digits_ok ds)); [discriminate|].
  destruct (JSON.read_fraction s2) as [[fs s3]|] eqn:F; [|discriminate].
  apply read_fraction_length in F.
  destruct (JSON.read_exponent s3) as [[x s4]|] eqn:X; [|discriminate].
  apply read_exponent_length in X.
  destruct (JS.digits_value (ds ++ fs)); [|discriminate].
  intros [= _ <-]. lia.
Qed.

Lemma parse_length f :
  (forall s v r, JSON.parse_value f s = Some (v, r) -> (String.length r <= String.length s)%nat)
  /\ (forall s acc v r,
        JSON.parse_elements f s acc = Some (v, r) -> (String.length r <= String.length s)%nat)
  /\ (forall s acc v r,
        JSON.parse_members f s acc = Some (v, r) -> (String.length r <= String.length s)%nat).
Proof.
  induction f as [|f (IHv & IHe & IHm)]; [repeat split; discriminate|].
  split; [|split].
  - intros s v r. rewrite parse_value_S.
    pose proof (skip_ws_length s) as W.
    destruct (JSON.skip_ws s) as [|c t]; [discriminate|]. simpl in W.
    destruct (Ascii.eqb c "[").
    { pose proof (skip_ws_length t) as W'.
      destruct (JSON.strip_prefix "]" (JSON.skip_ws t)) as [r'|] eqn:P.
      - apply strip_prefix_length in P. intros [= _ <-]. lia.
      - intro H. apply IHe in H. lia. }
    destruct (Ascii.eqb c "{").
    { pose proof (skip_ws_length t) as W'.
      destruct (JSON.strip_prefix "}" (JSON.skip_ws t)) as [r'|] eqn:P.
      - apply strip_prefix_length in P. intros [= _ <-]. lia.
      - intro H. apply IHm in H. lia. }
    destruct (Ascii.eqb c JSON.DQUOTE).
    { destruct (JSON.parse_string t) as [[b r']|] eqn:P; [|discriminate].
      apply (parse_string_length (String.length t)) in P; [|lia].
      intros [= _ <-]. lia. }
    destruct (Ascii.eqb c "t").
    { destruct (JSON.strip_prefix "rue" t) as [r'|] eqn:P; [|discriminate].
      apply strip_prefix_length in P. intros [= _ <-]. lia. }
    destruct (Ascii.eqb c "f").
    { destruct (JSON.strip_prefix "alse" t) as [r'|] eqn:P; [|discriminate].
      apply strip_prefix_length in P. intros [= _ <-]. lia. }
    destruct (Ascii.eqb c "n").
    { destruct (JSON.strip_prefix "ull" t) as [r'|] eqn:P; [|discriminate].
      apply strip_prefix_length in P. intros [= _ <-]. lia. }
    intro H. apply parse_number_length in H. simpl in H. lia.
  - intros s acc v r. rewrite parse_elements_S.
    destruct (JSON.parse_value f s) as [[x t]|] eqn:V; [|discriminate].
    apply IHv in V. pose proof (skip_ws_length t) as W.
    destruct (JSON.skip_ws t) as [|c t']; [discriminate|]. simpl in W.
    destruct (Ascii.eqb c ","); [intro H; apply IHe in H; lia|].
    destruct (Ascii.eqb c "]"); [|discriminate].
    intros [= _ <-]. lia.
  - intros s acc v r. rewrite parse_members_S.
    pose proof (skip_ws_length s) as W.
    destruct (JSON.strip_prefix _ (JSON.skip_ws s)) as [t|] eqn:P; [|discriminate].
    apply strip_prefix_length in P.
    destruct (JSON.parse_string t) as [[k t1]|] eqn:K; [|discriminate].
    apply (parse_string_length (String.length t)) in K; [|lia].
    pose proof (skip_ws_length t1) as W1.
    destruct (JSON.strip_prefix ":" (JSON.skip_ws t1)) as [t2|] eqn:P2; [|discriminate].
    apply strip_prefix_length in P2.
    destruct (JSON.parse_value f t2) as [[x t3]|] eqn:V; [|discriminate].
    apply IHv in V. pose proof (skip_ws_length t3) as W3.
    destruct (JSON.skip_ws t3) as [|c t4]; [discriminate|]. simpl in W3.
    destruct (Ascii.eqb c ","); [intro H; apply IHm in H; lia|].
    destruct (Ascii.eqb c "}"); [|discriminate].
    intros [= _ <-]. lia.
Qed.

(** Above [fuel_for], one more unit of fuel changes nothing. *)
Lemma fuel_step f :
  (forall s, (2 * String.length s + 1 <= f)%nat ->
             JSON.parse_value (S f) s = JSON.parse_value f s)
  /\ (forall s acc, (2 * String.length s + 2 <= f)%nat ->
        JSON.parse_elements (S f) s acc = JSON.parse_elements f s acc)
  /\ (forall s acc, (2 * String.length s + 2 <= f)%nat ->
        JSON.parse_members (S f) s acc = JSON.parse_members f s acc).
Proof.
  induction f as [|f (IHv & IHe & IHm)]; [repeat split; intros; lia|].
  destruct (parse_length f) as (Lv & _ & _).
  split; [|split].
  - intros s Hs. rewrite (parse_value_S (S f)), (parse_value_S f).
    pose proof (skip_ws_length s) as W.
    destruct (JSON.skip_ws s) as [|c t]; [reflexivity|]. simpl in W.
    rewrite IHe by lia. rewrite IHm by lia. reflexivity.
  - intros s acc Hs. rewrite (parse_elements_S (S f)), (parse_elements_S f).
    rewrite IHv by lia.
    destruct (JSON.parse_value f s) as [[x t]|] eqn:V; [|reflexivity].
    apply Lv in V. pose proof (skip_ws_length t) as W.
    destruct (JSON.skip_ws t) as [|c t']; [reflexivity|]. simpl in W.
    rewrite IHe by lia. reflexivity.
  - intros s acc Hs. rewrite (parse_members_S (S f)), (parse_members_S f).
    pose proof (skip_ws_length s) as W.
    destruct (JSON.strip_prefix _ (JSON.skip_ws s)) as [t|] eqn:P; [|reflexivity].
    apply strip_prefix_length in P.
    destruct (JSON.parse_string t) as [[k t1]|] eqn:K; [|reflexivity].
    apply (parse_string_length (String.length t)) in K; [|lia].
    pose proof (skip_ws_length t1) as W1.
    destruct (JSON.strip_prefix ":" (JSON.skip_ws t1)) as [t2|] eqn:P2; [|reflexivity].
    apply strip_prefix_length in P2.
    simpl in P, P2.
    rewrite IHv by lia.
    destruct (JSON.parse_value f t2) as [[x t3]|] eqn:V; [|reflexivity].
    apply Lv in V. pose proof (skip_ws_length t3) as W3.
    destruct (JSON.skip_ws t3) as [|c t4]; [reflexivity|]. simpl in W3.
    rewrite IHm by lia. reflexivity.
Qed.

(** More fuel than [fuel_for] gives the result of [fuel_for]: a [None] of
    [parse] is an error of the text, never a lack of fuel. *)
Lemma parse_value_fuel s f :
  (JSON.fuel_for s <= f)%nat ->
  JSON.parse_value f s = JSON.parse_value (JSON.fuel_for s) s.
Proof.
  induction 1 as [|f L IH]; [reflexivity|].
  rewrite <- IH. apply fuel_step. unfold JSON.fuel_for in L. lia.
Qed.

Lemma parse_stringify_tasks ts :
  JSON.parse (JSON.stringify (Web.tasks_value ts)) = Some (Web.tasks_value ts).
Proof.
  unfold JSON.parse.
  set (text := JSON.stringify (Web.tasks_value ts)).
  rewrite <- (parse_value_fuel text (Nat.max (JSON.fuel_for text) (List.length ts + 8)))
    by lia.
  assert (E : text = (text ++ EmptyString)%string).
  { clear. induction text; simpl; congruence. }
  rewrite E at 2. unfold text.
  rewrite parse_value_tasks by lia. reflexivity.
Qed.

Lemma parse_empty : JSON.parse EmptyString = None.
Proof. reflexivity. Qed.

End JSONFacts.

(** ** The console front end *)

Module CliFacts.

Import Spec.

Lemma lower_char_space c :
  Ascii.eqb c " " = true -> Ascii.eqb (JS.lower_char c) " " = true.
Proof. intro H. apply Ascii.eqb_eq in H. now subst c. Qed.

Lemma toLowerCase_space s :
  has_char " " s = true -> has_char " " (JS.toLowerCase s) = true.
Proof.
  induction s as [|c s IH]; simpl; [easy|].
  intro H. apply orb_true_iff in H. apply orb_true_iff.
  destruct H as [H|H]; [left; now apply lower_char_space|right; auto].
Qed.

(** A word that lower-cases to a command keyword holds no space. *)
Lemma keyword_no_space kw w :
  JS.toLowerCase kw = w -> has_char " " w = false -> has_char " " kw = false.
Proof.
  intros E H. destruct (has_char " " kw) eqn:K; [|reflexivity].
  apply toLowerCase_space in K. congruence.
Qed.

(** The parts of a trimmed line that starts with a keyword and a space. *)
Lemma parts_of_command kw rest :
  has_char " " kw = false ->
  JS.split " " (kw ++ String " " rest) = kw :: JS.split " " rest.
Proof. apply StringFacts.split_app_sep. Qed.

(** The [add] branch. *)
Lemma processCommand_add now line st kw rest :
  JS.trim line = kw ++ String " " rest ->
  JS.toLowerCase kw = "add" ->
  Cli.processCommand now line st =
    if (String.length rest =? 0)%nat
    then Cli.console_log
           "Error: Task text cannot be empty. Use: add <task text>" st
    else Cli.console_log "Task added successfully!"
           (Cli.set_tasks (Todo.addTask now (Cli.tasks st) rest) st).
Proof.
  intros T K. unfold Cli.processCommand. rewrite T.
  rewrite parts_of_command by (now apply (keyword_no_space kw "add")).
  cbn [hd JS.slice1 tl]. rewrite K.
  change (String.eqb "add" "add") with true. cbv iota.
  now rewrite StringFacts.join_split.
Qed.

(** The [done] branch. *)
Lemma processCommand_done now line st kw rest :
  JS.trim line = kw ++ String " " rest ->
  JS.toLowerCase kw = "done" ->
  Cli.processCommand now line st =
    let idStr := JS.trim rest in
    if String.eqb idStr EmptyString then
      Cli.console_log "Error: Please provide a task ID. Use: done <id>" st
    else
      match JS.parseInt idStr with
      | None =>
          Cli.console_log
            ("Error: " ++ JS.DQUOTE ++ idStr ++ JS.DQUOTE
               ++ " is not a valid task ID. Please use a number.") st
      | Some id =>
          if negb (existsb (fun t => Todo.id t =? id) (Cli.tasks st)) then
            Cli.console_log ("Error: Task with ID " ++ JS.Number_toString id
                               ++ " not found.") st
          else
            Cli.console_log
              ("Task " ++ JS.Number_toString id ++ " marked as done!")
              (Cli.set_tasks (Todo.markDone (Cli.tasks st) id) st)
      end.
Proof.
  intros T K. unfold Cli.processCommand. rewrite T.
  rewrite parts_of_command by (now apply (keyword_no_space kw "done")).
  cbn [hd JS.slice1 tl]. rewrite K.
  change (String.eqb "done" "add") with false.
  change (String.eqb "done" "list") with false.
  change (String.eqb "done" "done") with true. cbv iota.
  now rewrite StringFacts.join_split.
Qed.

(** A token that [parseInt] does not read is reported by name and leaves
    the tasks as they were. *)
Lemma done_not_a_number now line st kw rest :
  JS.trim line = kw ++ String " " rest ->
  JS.toLowerCase kw = "done" ->
  JS.trim rest <> EmptyString ->
  JS.parseInt (JS.trim rest) = None ->
  Cli.processCommand now line st =
    Cli.console_log
      ("Error: " ++ JS.DQUOTE ++ JS.trim rest ++ JS.DQUOTE
         ++ " is not a valid task ID. Please use a number.") st.
Proof.
  intros T K NE P. rewrite (processCommand_done now line st kw rest T K).
  cbv zeta. rewrite P.
  destruct (String.eqb_spec (JS.trim rest) EmptyString); [contradiction|].
  reflexivity.
Qed.

End CliFacts.

(** ** The task model *)

Module TodoFacts.

Import Todo.

(** The id [addTask] and [getNextId] assign. *)
(** On safe ids the id assigned is 1 + the largest id. *)
Lemma getNextId_exact t ts :
  Spec.safe_ids (t :: ts) ->
  Web.getNextId (t :: ts) = JS.Math_max (id t) (map id ts) + 1.
Proof.
  intro S. cbn [Web.getNextId]. apply JSFacts.add_one_exact.
  apply S. apply (JSFacts.Math_max_in (id t) (map id ts)).
Qed.

Lemma next_id_fresh (C : list Task) x :
  Spec.safe_ids C -> In x (map id C) -> x < Web.getNextId C.
Proof.
  destruct C as [|t ts]; [intros _ []|].
  intros S H. rewrite (getNextId_exact t ts S).
  pose proof (JSFacts.Math_max_upper (id t) (map id ts) x H). lia.
Qed.

Lemma addTask_eq now C t :
  addTask now C t = (C ++ [mkTask (Web.getNextId C) t false now])%list.
Proof. destruct C; reflexivity. Qed.

Lemma markDone_absent C i :
  (forall t, In t C -> id t <> i) -> markDone C i = C.
Proof.
  induction C as [|t ts IH]; intro H; simpl; [reflexivity|].
  destruct (Z.eqb_spec (id t) i) as [E|E].
  - exfalso. apply (H t); simpl; auto.
  - f_equal. apply IH. intros u Hu. apply H. now right.
Qed.

Lemma markDone_ids C i : map id (markDone C i) = map id C.
Proof.
  unfold markDone. rewrite map_map. apply map_ext.
  intro t. now destruct (id t =? i).
Qed.

End TodoFacts.

(** ** The browser front end *)

Module WebFacts.

Import Todo.

Lemma as_task_value t : Web.as_task (Web.task_value t) = Some t.
Proof. destruct t. reflexivity. Qed.

Lemma as_tasks_value C : Web.as_tasks (Web.tasks_value C) = Some C.
Proof.
  unfold Web.as_tasks, Web.tasks_value.
  induction C as [|t ts IH]; [reflexivity|].
  cbn [map Web.as_task_list]. now rewrite as_task_value, IH.
Qed.

(** The saved text is never the empty string. *)
Lemma stringify_tasks_nonempty C :
  String.eqb (JSON.stringify (Web.tasks_value C)) EmptyString = false.
Proof. reflexivity. Qed.

Lemma loadTasks_stored st blob v :
  Web.localStorage st = Some blob ->
  JSON.parse blob = Some v ->
  Web.loadTasks st = Web.set_tasks v st.
Proof.
  intros L P. unfold Web.loadTasks. rewrite L.
  destruct (String.eqb_spec blob EmptyString) as [->|_].
  - rewrite JSONFacts.parse_empty in P. discriminate.
  - now rewrite P.
Qed.

Lemma NoDup_snoc (l : list Z) x : NoDup l -> ~ In x l -> NoDup (l ++ [x]).
Proof.
  induction 1 as [|y l Hy Hl IH]; intro N; simpl.
  - constructor; [tauto|constructor].
  - constructor.
    + rewrite in_app_iff. simpl. intros [H|[H|[]]]; [tauto|].
      apply N. now left.
    + apply IH. intro H. apply N. now right.
Qed.

Lemma next_id_not_in C :
  Spec.safe_ids C -> ~ In (Web.getNextId C) (map id C).
Proof. intros S H. apply (TodoFacts.next_id_fresh C _ S) in H. lia. Qed.

Lemma unique_snoc C t :
  Spec.unique_ids C -> ~ In (id t) (map id C) -> Spec.unique_ids (C ++ [t]).
Proof.
  unfold Spec.unique_ids. rewrite map_app. apply NoDup_snoc.
Qed.

Lemma unique_filter (p : Task -> bool) C :
  Spec.unique_ids C -> Spec.unique_ids (filter p C).
Proof.
  unfold Spec.unique_ids.
  induction C as [|t ts IH]; simpl; intro H; [constructor|].
  inversion H as [|x l Hx Hl]; subst.
  destruct (p t); simpl; [|now apply IH].
  constructor; [|now apply IH].
  intro N. apply Hx. apply in_map_iff in N. destruct N as [u [E U]].
  apply filter_In in U. apply in_map_iff. exists u. tauto.
Qed.

Lemma toggle_found_ids i C C' :
  Web.toggle_found i C = Some C' -> map id C' = map id C.
Proof.
  revert C'. induction C as [|t ts IH]; intro C'; simpl; [discriminate|].
  destruct (id t =? i); [intros [= <-]; reflexivity|].
  destruct (Web.toggle_found i ts) as [r|]; [|discriminate].
  intros [= <-]. simpl. f_equal. now apply IH.
Qed.

(** Writing a task array into [tasks] and saving leaves that array. *)
Lemma saved_tasks C st :
  Web.as_tasks (Web.tasks (Web.saveTasks (Web.set_tasks (Web.tasks_value C) st)))
  = Some C.
Proof. cbn [Web.saveTasks Web.setItem Web.set_tasks Web.tasks]. apply as_tasks_value. Qed.

End WebFacts.




(** C2. [markDone] keeps the length and the order; at every position the
    task keeps its id, text and createdAt; a task that carries the id is
    completed in the result and any other task is unchanged; when no task
    carries the id the result equals the collection. *)
Theorem markDone_marks_matching (C : list Todo.Task) (i : Z) :
  List.length (Todo.markDone C i) = List.length C
  /\ (forall k task, nth_error C k = Some task ->
        exists task',
          nth_error (Todo.markDone C i) k = Some task'
          /\ Todo.id task' = Todo.id task
          /\ Todo.text task' = Todo.text task
          /\ Todo.createdAt task' = Todo.createdAt task
          /\ (Todo.id task = i -> Todo.completed task' = true)
          /\ (Todo.id task <> i -> task' = task))
  /\ ((forall task, In task C -> Todo.id task <> i) -> Todo.markDone C i = C).
Proof.
  split; [apply length_map|]. split; [|apply TodoFacts.markDone_absent].
  intros k task H. unfold Todo.markDone.
  rewrite nth_error_map, H. simpl.
  destruct (Z.eqb_spec (Todo.id task) i) as [E|E].
  - eexists. split; [reflexivity|]. simpl. repeat split; congruence.
  - exists task. repeat split; congruence.
Qed.

(** C4. [markDone] is idempotent. *)
Theorem markDone_idempotent (C : list Todo.Task) (i : Z) :
  Todo.markDone (Todo.markDone C i) i = Todo.markDone C i.
Proof.
  unfold Todo.markDone. rewrite map_map. apply map_ext.
  intro t. destruct (Z.eqb_spec (Todo.id t) i) as [E|E]; simpl.
  - apply Z.eqb_eq in E. now rewrite E.
  - apply Z.eqb_neq in E. now rewrite E.
Qed.

(** C3. [listTasks] of the empty collection is the message [No tasks yet.],
    which no task line and no listing of a non-empty collection equals; the
    listing of a non-empty collection is the lines of its tasks, in order,
    separated by line feeds, each line being [[<marker>] <id> - <text>]
    with marker x for a completed task and a space otherwise; when no text
    holds a line feed, cutting the listing at the line feeds gives exactly
    one line per task. *)
Theorem listTasks_lines :
  Todo.listTasks [] = Spec.no_tasks
  /\ (forall t, Spec.task_line t <> Spec.no_tasks)
  /\ (forall C, C <> [] ->
        Todo.listTasks C = JS.join JS.LF (map Spec.task_line C)
        /\ Todo.listTasks C <> Spec.no_tasks)
  /\ (forall C, C <> [] ->
        (forall t, In t C -> Spec.has_char "010" (Todo.text t) = false) ->
        JS.split "010" (Todo.listTasks C) = map Spec.task_line C)
  /\ (forall t,
        Spec.task_line t =
          String "[" (String (if Todo.completed t then "x" else " ")
            ("] " ++ JS.Number_toString (Todo.id t) ++ " - " ++ Todo.text t))).
Proof.
  assert (L : forall C, C <> [] ->
            Todo.listTasks C = JS.join JS.LF (map Spec.task_line C)).
  { intros [|t ts] H; [congruence|reflexivity]. }
  split; [reflexivity|]. split; [intros t; discriminate|].
  split; [|split].
  - intros C H. split; [now apply L|].
    destruct C as [|t ts]; [congruence|].
    rewrite (L _ H). unfold JS.join. destruct ts; discriminate.
  - intros C H T. rewrite (L _ H). apply StringFacts.split_join.
    + destruct C; simpl; congruence.
    + intros p Hp. apply in_map_iff in Hp. destruct Hp as [t [<- Ht]].
      unfold Spec.task_line.
      rewrite !StringFacts.has_char_app, (T t Ht).
      rewrite StringFacts.Number_toString_no_char by (reflexivity || discriminate).
      now destruct (Todo.completed t).
  - intro t. unfold Spec.task_line. destruct (Todo.completed t); reflexivity.
Qed.

(** C9, as stated, fails: the line [add buy  milk] holds the keyword and the
    tokens buy and milk, and the text stored keeps the two spaces between
    them. *)
Lemma add_keeps_runs_of_spaces :
  let line := "add buy  milk" in
  let st := Cli.processCommand "2024-01-01T00:00:00.000Z" line Cli.initial in
  Spec.tokens line = ["add"; "buy"; "milk"]
  /\ map Todo.text (Cli.tasks st) = ["buy  milk"]
  /\ map Todo.text (Cli.tasks st) <> [JS.join " " (tl (Spec.tokens line))].
Proof. repeat split. discriminate. Qed.

(** C9, amended. When the trimmed line is the keyword add (in any letter
    case), one space and a non-empty remainder, the command appends one
    task whose text is that remainder, character for character; so tokens
    separated by single spaces are stored joined with single spaces. *)
Theorem add_stores_remainder
  (now line : string) (st : Cli.State) (kw rest : string) :
  JS.trim line = kw ++ String " " rest ->
  JS.toLowerCase kw = "add" ->
  rest <> EmptyString ->
  Cli.tasks (Cli.processCommand now line st)
    = Todo.addTask now (Cli.tasks st) rest
  /\ (exists newTask,
        Cli.tasks (Cli.processCommand now line st)
          = (Cli.tasks st ++ [newTask])%list
        /\ Todo.text newTask = rest)
  /\ (forall ws, rest = JS.join " " ws ->
        exists newTask,
          Cli.tasks (Cli.processCommand now line st)
            = (Cli.tasks st ++ [newTask])%list
          /\ Todo.text newTask = JS.join " " ws).
Proof.
  intros T K NE.
  rewrite (CliFacts.processCommand_add now line st kw rest T K).
  destruct rest as [|c r]; [congruence|]. cbn [String.length Nat.eqb].
  cbn [Cli.console_log Cli.set_tasks Cli.tasks].
  rewrite TodoFacts.addTask_eq.
  split; [reflexivity|]. split.
  - eexists. split; reflexivity.
  - intros ws ->. eexists. split; reflexivity.
Qed.

Lemma add_stores_remainder_witness :
  JS.trim "  Add buy  milk " = "Add" ++ String " " "buy  milk"
  /\ map Todo.text
       (Cli.tasks (Cli.processCommand "now" "  Add buy  milk " Cli.initial))
     = ["buy  milk"].
Proof.
  split; [reflexivity|].
  destruct (add_stores_remainder "now" "  Add buy  milk " Cli.initial
              "Add" "buy  milk" eq_refl eq_refl ltac:(discriminate))
    as [E _].
  rewrite E. reflexivity.
Defined.

(** C7: the console accepts a token that merely starts with an integer.
    With one open task of id 1, the line [done 1abc] is not rejected: the
    task is marked done and the confirmation is printed. *)
Theorem done_accepts_integer_prefix :
  let task := Todo.mkTask 1 "buy milk" false "2024-01-01T00:00:00.000Z" in
  let st := Cli.mkState [task] [] None in
  let st' := Cli.processCommand "2024-01-02T00:00:00.000Z" "done 1abc" st in
  JS.parseInt "1abc" = Some 1
  /\ Cli.tasks st' = [Todo.set_completed true task]
  /\ Cli.tasks st' <> Cli.tasks st
  /\ Cli.stdout st' = ["Task 1 marked as done!"].
Proof. repeat split. discriminate. Qed.

(** C5. Saving a collection and loading what was saved gives the collection
    back: the text written to the store parses to the same array of task
    objects, so the loaded tasks are those of the collection, with their
    four fields, in order; this holds for a load into the saving page and
    for a load at the start of a later run. *)
Theorem save_then_load_roundtrip (C : list Todo.Task) (st : Web.State) :
  let saved := Web.saveTasks (Web.set_tasks (Web.tasks_value C) st) in
  Web.localStorage saved = Some (JSON.stringify (Web.tasks_value C))
  /\ JSON.parse (JSON.stringify (Web.tasks_value C)) = Some (Web.tasks_value C)
  /\ Web.as_tasks (Web.tasks (Web.loadTasks saved)) = Some C
  /\ Web.as_tasks (Web.tasks (Web.init (Web.localStorage saved))) = Some C.
Proof.
  cbv zeta. split; [reflexivity|].
  split; [apply JSONFacts.parse_stringify_tasks|].
  pose proof (JSONFacts.parse_stringify_tasks C) as P.
  split.
  - rewrite (WebFacts.loadTasks_stored
               (Web.saveTasks (Web.set_tasks (Web.tasks_value C) st))
               (JSON.stringify (Web.tasks_value C)) (Web.tasks_value C)
               eq_refl P).
    apply WebFacts.as_tasks_value.
  - unfold Web.init.
    change (Web.localStorage
              (Web.saveTasks (Web.set_tasks (Web.tasks_value C) st)))
      with (Some (JSON.stringify (Web.tasks_value C))).
    rewrite (WebFacts.loadTasks_stored
               (Web.startup (Some (JSON.stringify (Web.tasks_value C))))
               (JSON.stringify (Web.tasks_value C)) (Web.tasks_value C)
               eq_refl P).
    apply WebFacts.as_tasks_value.
Qed.



(** C8. A stored text that [JSON.parse] rejects leaves the page with the
    empty collection, and [loadTasks] returns normally (it is a total
    function of the state); a rejected non-empty text is reported on the
    error console.  Nothing else is discarded: a stored text that parses is
    installed as the collection. *)
Theorem corrupt_store_gives_empty (blob : string) :
  (JSON.parse blob = None ->
     Web.tasks (Web.init (Some blob)) = JSON.Arr []
     /\ (blob <> EmptyString ->
         forall st, Web.localStorage st = Some blob ->
           Web.loadTasks st =
             Web.set_tasks (JSON.Arr [])
               (Web.log_error "Error loading tasks from localStorage:" st)))
  /\ (forall v, JSON.parse blob = Some v ->
        forall st, Web.localStorage st = Some blob ->
          Web.tasks (Web.loadTasks st) = v).
Proof.
  split.
  - intro P. split.
    + unfold Web.init, Web.loadTasks. cbn [Web.startup Web.localStorage].
      destruct (String.eqb blob EmptyString); [reflexivity|].
      now rewrite P.
    + intros NE st L. unfold Web.loadTasks. rewrite L.
      destruct (String.eqb_spec blob EmptyString); [contradiction|].
      now rewrite P.
  - intros v P st L. now rewrite (WebFacts.loadTasks_stored st blob v L P).
Qed.

(** C10. [loadTasks] checks that the stored text is JSON and nothing more:
    a text that parses to a value is installed as [tasks] whatever the
    value is; the branch that resets [tasks] and writes to the error
    console runs exactly when the text is non-empty and [JSON.parse] throws;
    with nothing stored the state is left as it was. *)
Theorem loadTasks_checks_syntax_only (st : Web.State) :
  (Web.localStorage st = None -> Web.loadTasks st = st)
  /\ (forall blob v,
        Web.localStorage st = Some blob -> JSON.parse blob = Some v ->
        Web.loadTasks st = Web.set_tasks v st)
  /\ (forall blob,
        Web.localStorage st = Some blob ->
        (Web.console_error (Web.loadTasks st) <> Web.console_error st
         <-> blob <> EmptyString /\ JSON.parse blob = None)
        /\ (blob <> EmptyString -> JSON.parse blob = None ->
            Web.tasks (Web.loadTasks st) = JSON.Arr []))
  /\ (exists blob v,
        JSON.parse blob = Some v /\ Web.as_tasks v = None
        /\ Web.tasks (Web.init (Some blob)) = v).
Proof.
  split; [|split; [|split]].
  - intro L. unfold Web.loadTasks. now rewrite L.
  - intros blob v. apply WebFacts.loadTasks_stored.
  - intros blob L. unfold Web.loadTasks. rewrite L.
    destruct (String.eqb_spec blob EmptyString) as [->|NE].
    + split; [|congruence]. split; [congruence|]. intros [H _]. congruence.
    + destruct (JSON.parse blob) as [v|] eqn:P.
      * split; [|congruence]. cbn [Web.set_tasks Web.console_error].
        split; [congruence|]. intros [_ H]. discriminate.
      * split; [|reflexivity].
        cbn [Web.set_tasks Web.log_error Web.console_error].
        split; [now split|]. intros _ E.
        apply (f_equal (@List.length string)) in E.
        rewrite length_app in E. simpl in E. lia.
  - exists "{}", (JSON.Obj []). repeat split.
Qed.

(** * Further properties

    Properties of the functions around the claims: how the operations of
    the task model compose, what the console does on every line and over a
    whole run, and what the page does on every event. *)

Module ModelFacts.

Import Todo.

Lemma getNextId_ids C C' :
  map id C = map id C' -> Web.getNextId C = Web.getNextId C'.
Proof.
  destruct C as [|t ts], C' as [|u us]; simpl; try discriminate; [reflexivity|].
  intros [= -> ->]. reflexivity.
Qed.

Lemma markDone_app A B i :
  markDone (A ++ B) i = (markDone A i ++ markDone B i)%list.
Proof. apply map_app. Qed.

Lemma markDone_comm C i j :
  markDone (markDone C i) j = markDone (markDone C j) i.
Proof.
  unfold markDone. rewrite !map_map. apply map_ext. intro t.
  destruct (id t =? i) eqn:I, (id t =? j) eqn:J; simpl;
    rewrite ?I, ?J; reflexivity.
Qed.

Lemma markDone_addTask now C t i :
  i <> Web.getNextId C ->
  markDone (addTask now C t) i = addTask now (markDone C i) t.
Proof.
  intro N. rewrite !TodoFacts.addTask_eq, markDone_app.
  rewrite (getNextId_ids (markDone C i) C (TodoFacts.markDone_ids C i)).
  f_equal. simpl. destruct (Z.eqb_spec (Web.getNextId C) i); congruence.
Qed.

(** Marking the task just added completes it and nothing else. *)
Lemma markDone_new now C t :
  Spec.safe_ids C ->
  markDone (addTask now C t) (Web.getNextId C)
  = (C ++ [mkTask (Web.getNextId C) t true now])%list.
Proof.
  intro S. rewrite TodoFacts.addTask_eq, markDone_app. f_equal.
  - apply TodoFacts.markDone_absent. intros u Hu E.
    pose proof (TodoFacts.next_id_fresh C (id u) S (in_map id C u Hu)). lia.
  - simpl. now rewrite Z.eqb_refl.
Qed.

Lemma numbering_S n :
  Inv.numbering (S n) = (Inv.numbering n ++ [Z.of_nat (S n)])%list.
Proof.
  unfold Inv.numbering. rewrite seq_S, map_app. reflexivity.
Qed.

Lemma numbering_bounds n x : In x (Inv.numbering n) <-> 1 <= x <= Z.of_nat n.
Proof.
  unfold Inv.numbering. rewrite in_map_iff. split.
  - intros [k [<- H]]. apply in_seq in H. lia.
  - intro H. exists (Z.to_nat x). split; [lia|]. apply in_seq. lia.
Qed.

Lemma numbering_safe C :
  map id C = Inv.numbering (List.length C) ->
  Z.of_nat (List.length C) < JS.two53 -> Spec.safe_ids C.
Proof.
  intros H B x I. rewrite H in I. apply numbering_bounds in I.
  unfold JS.safe. lia.
Qed.

Lemma getNextId_numbering C :
  map id C = Inv.numbering (List.length C) ->
  Z.of_nat (List.length C) < JS.two53 ->
  Web.getNextId C = Z.of_nat (S (List.length C)).
Proof.
  intros H B. destruct C as [|t ts]; [reflexivity|].
  rewrite (TodoFacts.getNextId_exact t ts (numbering_safe _ H B)).
  pose proof (JSFacts.Math_max_in (id t) (map id ts)) as I.
  change (id t :: map id ts) with (map id (t :: ts)) in I.
  rewrite H in I. apply numbering_bounds in I.
  assert (L : In (Z.of_nat (List.length (t :: ts))) (map id (t :: ts))).
  { rewrite H. apply numbering_bounds. cbn [List.length]. lia. }
  apply (JSFacts.Math_max_upper (id t) (map id ts)) in L. lia.
Qed.

Lemma addTask_numbering now C t :
  map id C = Inv.numbering (List.length C) ->
  Z.of_nat (List.length C) < JS.two53 ->
  map id (addTask now C t) = Inv.numbering (List.length (addTask now C t)).
Proof.
  intros H B. rewrite TodoFacts.addTask_eq, length_app, map_app.
  cbn [List.length map id].
  rewrite Nat.add_1_r, numbering_S, <- H.
  now rewrite (getNextId_numbering C H B).
Qed.

Lemma NoDup_numbering n : NoDup (Inv.numbering n).
Proof.
  unfold Inv.numbering. apply NoDup_map_inv with (f := Z.to_nat).
  rewrite map_map. erewrite map_ext; [rewrite map_id; apply seq_NoDup|].
  intro a. apply Nat2Z.id.
Qed.

(** [continues] is a preorder, and the two operations of the model follow it. *)
Lemma continues_refl C : Inv.continues C C.
Proof. split; [lia|]. intros k t H. exists t. tauto. Qed.

Lemma continues_trans A B C :
  Inv.continues A B -> Inv.continues B C -> Inv.continues A C.
Proof.
  intros [L1 H1] [L2 H2]. split; [lia|]. intros k t H.
  destruct (H1 k t H) as (t' & N' & I' & T' & D' & K').
  destruct (H2 k t' N') as (t'' & N'' & I'' & T'' & D'' & K'').
  exists t''. repeat split; try congruence. auto.
Qed.

Lemma continues_addTask now C t : Inv.continues C (addTask now C t).
Proof.
  rewrite TodoFacts.addTask_eq. split; [rewrite length_app; lia|].
  intros k u H. exists u. split; [|tauto].
  rewrite nth_error_app1; [exact H|]. apply nth_error_Some. congruence.
Qed.

Lemma continues_markDone C i : Inv.continues C (markDone C i).
Proof.
  split; [unfold markDone; rewrite length_map; lia|].
  intros k t H. unfold markDone. rewrite nth_error_map, H. cbn [option_map].
  destruct (id t =? i); eexists; (split; [reflexivity|]); simpl; tauto.
Qed.

End ModelFacts.

Module TrimFacts.

Lemma append_nil_r (s : string) : (s ++ EmptyString)%string = s.
Proof. induction s; simpl; congruence. Qed.

Lemma append_length (a b : string) :
  String.length (a ++ b) = (String.length a + String.length b)%nat.
Proof. induction a; simpl; congruence. Qed.

Lemma append_inv_head (a b c : string) : (a ++ b = a ++ c)%string -> b = c.
Proof. induction a; simpl; [auto|]. intros [= H]. auto. Qed.

Lemma trimEnd_length s : (String.length (JS.trimEnd s) <= String.length s)%nat.
Proof.
  induction s as [|c r IH]; simpl; [lia|].
  destruct (JS.trimEnd r); [destruct (JS.is_white_space c)|]; simpl in *; lia.
Qed.

Lemma trimEnd_cons c r :
  JS.trimEnd (String c r) =
  match JS.trimEnd r with
  | EmptyString =>
      if JS.is_white_space c then EmptyString else String c EmptyString
  | r' => String c r'
  end.
Proof. reflexivity. Qed.

Lemma trimEnd_app a b :
  JS.trimEnd (a ++ b) =
  match JS.trimEnd b with
  | EmptyString => JS.trimEnd a
  | b' => (a ++ b')%string
  end.
Proof.
  induction a as [|c a IH]; cbn [append].
  - now destruct (JS.trimEnd b).
  - rewrite !trimEnd_cons, IH.
    destruct (JS.trimEnd b) as [|x b']; [reflexivity|].
    destruct a; reflexivity.
Qed.

Lemma trimEnd_idem s : JS.trimEnd (JS.trimEnd s) = JS.trimEnd s.
Proof.
  induction s as [|c r IH]; [reflexivity|]. rewrite trimEnd_cons.
  destruct (JS.trimEnd r) as [|x r'] eqn:E.
  - destruct (JS.is_white_space c) eqn:W; [reflexivity|].
    rewrite trimEnd_cons. cbn [JS.trimEnd]. now rewrite W.
  - rewrite trimEnd_cons, IH. reflexivity.
Qed.

(** A non-empty end of a string without trailing white space has none. *)
Lemma trimEnd_suffix a b :
  JS.trimEnd (a ++ b) = (a ++ b)%string -> b <> EmptyString ->
  JS.trimEnd b = b.
Proof.
  intros H N. rewrite trimEnd_app in H.
  destruct (JS.trimEnd b) as [|x b'] eqn:E.
  - exfalso. pose proof (trimEnd_length a) as L.
    rewrite H, append_length in L.
    destruct b; [congruence|simpl in L; lia].
  - now apply append_inv_head in H.
Qed.

Lemma trimStart_head s :
  match JS.trimStart s with
  | EmptyString => True
  | String c _ => JS.is_white_space c = false
  end.
Proof.
  induction s as [|c r IH]; simpl; [exact I|].
  destruct (JS.is_white_space c) eqn:W; [exact IH|exact W].
Qed.

Lemma trimEnd_head c r :
  JS.is_white_space c = false ->
  exists r', JS.trimEnd (String c r) = String c r'.
Proof.
  intro W. rewrite trimEnd_cons.
  destruct (JS.trimEnd r); [rewrite W|]; eauto.
Qed.

Lemma trim_head s :
  match JS.trim s with
  | EmptyString => True
  | String c _ => JS.is_white_space c = false
  end.
Proof.
  unfold JS.trim. pose proof (trimStart_head s) as H.
  destruct (JS.trimStart s) as [|c r]; [exact I|].
  destruct (trimEnd_head c r H) as [r' ->]. exact H.
Qed.

Lemma trimStart_fixed s :
  match s with
  | EmptyString => True
  | String c _ => JS.is_white_space c = false
  end -> JS.trimStart s = s.
Proof. destruct s as [|c r]; [reflexivity|]. simpl. now intros ->. Qed.

Lemma trimEnd_trim s : JS.trimEnd (JS.trim s) = JS.trim s.
Proof. apply trimEnd_idem. Qed.

Lemma trim_idem s : JS.trim (JS.trim s) = JS.trim s.
Proof.
  unfold JS.trim at 1. rewrite (trimStart_fixed _ (trim_head s)).
  apply trimEnd_trim.
Qed.

(** A string without white space at its two ends is its own trim. *)
Lemma trim_fixed s :
  match s with
  | EmptyString => True
  | String c _ => JS.is_white_space c = false
  end -> JS.trimEnd s = s -> JS.trim s = s.
Proof. intros H E. unfold JS.trim. now rewrite (trimStart_fixed s H). Qed.

Lemma trimEnd_no_white_space s :
  (forall c, JS.is_white_space c = true -> Spec.has_char c s = false) ->
  JS.trimEnd s = s.
Proof.
  induction s as [|c r IH]; [reflexivity|]. intro H.
  rewrite trimEnd_cons.
  assert (W : JS.is_white_space c = false).
  { destruct (JS.is_white_space c) eqn:W; [|reflexivity].
    specialize (H c W). simpl in H. now rewrite Ascii.eqb_refl in H. }
  rewrite IH, W.
  - now destruct r.
  - intros x Hx. specialize (H x Hx). simpl in H.
    now apply orb_false_iff in H.
Qed.

Lemma white_space_not_digit c :
  JS.is_white_space c = true -> JS.is_digit c = false /\ c <> "-"%char.
Proof.
  destruct c as [[] [] [] [] [] [] [] []]; try discriminate;
    intros _; split; (reflexivity || discriminate).
Qed.

Lemma trim_Number_toString n :
  JS.trim (JS.Number_toString n) = JS.Number_toString n.
Proof.
  assert (E : JS.trimEnd (JS.Number_toString n) = JS.Number_toString n).
  { apply trimEnd_no_white_space. intros c W.
    destruct (white_space_not_digit c W).
    now apply StringFacts.Number_toString_no_char. }
  apply trim_fixed; [|exact E].
  destruct (JSONFacts.Number_toString_head n) as [c [r [-> H]]].
  destruct (JS.is_white_space c) eqn:W; [|reflexivity].
  destruct (white_space_not_digit c W). destruct H; congruence.
Qed.

Lemma parseInt_Number_toString n :
  JS.safe n -> JS.parseInt (JS.Number_toString n) = Some n.
Proof.
  intro SF.
  assert (X : forall z, Z.abs z = Z.abs n -> JS.to_double z = z).
  { intros z E. apply JSFacts.to_double_exact. unfold JS.safe in SF. lia. }
  unfold JS.parseInt.
  rewrite (trimStart_fixed (JS.Number_toString n)).
  2:{ destruct (JSONFacts.Number_toString_head n) as [c [r [-> H]]].
      destruct (JS.is_white_space c) eqn:W; [|reflexivity].
      destruct (white_space_not_digit c W). destruct H; congruence. }
  assert (SP : forall p,
    JS.span_digits (NilEmpty.string_of_uint (Pos.to_uint p))
    = (NilEmpty.string_of_uint (Pos.to_uint p), EmptyString)).
  { intro p. rewrite <- (append_nil_r (NilEmpty.string_of_uint _)) at 1.
    apply JSONFacts.span_digits_uint. discriminate. }
  unfold JS.Number_toString.
  destruct n as [|p|p]; cbn [Z.to_int NilZero.string_of_int].
  - reflexivity.
  - rewrite JSONFacts.string_of_uint_eq.
    destruct (NilEmpty.string_of_uint (Pos.to_uint p)) as [|c r] eqn:S.
    + pose proof (JSONFacts.int_digits_ok_uint p) as O. now rewrite S in O.
    + pose proof (JSONFacts.uint_digits _ _ _ S) as D.
      destruct c as [[] [] [] [] [] [] [] []]; try discriminate D;
        cbv iota beta; rewrite <- S, SP; cbn [fst];
        rewrite JSONFacts.digits_value_uint; cbn [option_map];
        now rewrite X.
  - rewrite JSONFacts.string_of_uint_eq, SP. cbn [fst].
    rewrite JSONFacts.digits_value_uint. cbn [option_map Z.opp].
    now rewrite X.
Qed.

End TrimFacts.

Module ConsoleFacts.

Import Todo.

Lemma trim_all_white_space s :
  Inv.all_white_space s = true -> JS.trim s = EmptyString.
Proof.
  intro H. unfold JS.trim.
  assert (E : JS.trimStart s = EmptyString).
  { induction s as [|c r IH]; [reflexivity|]. simpl in *.
    apply andb_true_iff in H. destruct H as [-> H]. auto. }
  now rewrite E.
Qed.

(** The text after the keyword is the end of the trimmed line. *)
Lemma arguments_suffix t :
  JS.join " " (JS.slice1 (JS.split " " t)) = EmptyString
  \/ exists h, t = (h ++ " " ++ JS.join " " (JS.slice1 (JS.split " " t)))%string.
Proof.
  pose proof (StringFacts.join_split " " t) as J.
  pose proof (StringFacts.split_nonempty " " t) as N.
  destruct (JS.split " " t) as [|h [|r rs]]; [congruence|now left|].
  right. exists h. now rewrite <- J at 1.
Qed.

Lemma arguments_console_text line :
  let text := JS.join " " (JS.slice1 (JS.split " " (JS.trim line))) in
  text <> EmptyString -> Inv.console_text text.
Proof.
  intros text N. split; [exact N|].
  destruct (arguments_suffix (JS.trim line)) as [E|[h E]]; [contradiction|].
  fold text in E.
  apply (TrimFacts.trimEnd_suffix (h ++ " ") text); [|exact N].
  rewrite JSONFacts.append_assoc. cbn [append] in *. rewrite <- E.
  apply TrimFacts.trimEnd_trim.
Qed.

(** What a command does to the tasks. *)
Lemma processCommand_effect now line st :
  Cli.tasks (Cli.processCommand now line st) = Cli.tasks st
  \/ (Inv.keyword line = "add"
      /\ exists text, Inv.console_text text
           /\ Cli.tasks (Cli.processCommand now line st)
              = addTask now (Cli.tasks st) text)
  \/ (Inv.keyword line = "done"
      /\ exists i, existsb (fun t => id t =? i) (Cli.tasks st) = true
           /\ Cli.tasks (Cli.processCommand now line st)
              = markDone (Cli.tasks st) i).
Proof.
  unfold Cli.processCommand, Inv.keyword. cbv zeta.
  destruct (String.eqb_spec
              (JS.toLowerCase (hd EmptyString (JS.split " " (JS.trim line))))
              "add") as [A|_].
  { destruct (JS.join " " (JS.slice1 (JS.split " " (JS.trim line))))
      as [|c r] eqn:E; [now left|].
    right; left. split; [exact A|]. exists (String c r). split; [|reflexivity].
    rewrite <- E. apply arguments_console_text. rewrite E. discriminate. }
  destruct (String.eqb _ "list"); [now left|].
  destruct (String.eqb_spec
              (JS.toLowerCase (hd EmptyString (JS.split " " (JS.trim line))))
              "done") as [D|_].
  { destruct (String.eqb _ EmptyString); [now left|].
    destruct (JS.parseInt _) as [i|]; [|now left].
    destruct (existsb _ _) eqn:X; [|now left].
    right; right. split; [exact D|]. exists i. now split. }
  destruct (String.eqb _ "help"); [now left|].
  destruct (String.eqb _ "quit"); [now left|].
  destruct (String.eqb _ EmptyString); now left.
Qed.

Lemma run_exited lines st c : Cli.exited st = Some c -> Cli.run lines st = st.
Proof. intro H. destruct lines as [|[now l] r]; simpl; [|rewrite H]; reflexivity. Qed.

(** An invariant of every command is an invariant of every run. *)
Lemma run_invariant (P : list Task -> Prop) :
  (forall now line st, P (Cli.tasks st) ->
                       P (Cli.tasks (Cli.processCommand now line st))) ->
  forall lines st, P (Cli.tasks st) -> P (Cli.tasks (Cli.run lines st)).
Proof.
  intros H lines. induction lines as [|[now l] r IH]; intros st HP; simpl; [exact HP|].
  destruct (Cli.exited st); [exact HP|]. apply IH, H, HP.
Qed.

Lemma processCommand_continues now line st :
  Inv.continues (Cli.tasks st) (Cli.tasks (Cli.processCommand now line st)).
Proof.
  destruct (processCommand_effect now line st)
    as [E|[(_ & text & _ & E)|(_ & i & _ & E)]]; rewrite E.
  - apply ModelFacts.continues_refl.
  - apply ModelFacts.continues_addTask.
  - apply ModelFacts.continues_markDone.
Qed.

Lemma processCommand_numbering now line st :
  map id (Cli.tasks st) = Inv.numbering (List.length (Cli.tasks st)) ->
  Z.of_nat (List.length (Cli.tasks st)) < JS.two53 ->
  map id (Cli.tasks (Cli.processCommand now line st))
  = Inv.numbering (List.length (Cli.tasks (Cli.processCommand now line st))).
Proof.
  intros H B.
  destruct (processCommand_effect now line st)
    as [E|[(_ & text & _ & E)|(_ & i & _ & E)]]; rewrite E.
  - exact H.
  - now apply ModelFacts.addTask_numbering.
  - rewrite TodoFacts.markDone_ids. unfold markDone. now rewrite length_map.
Qed.

(** A command adds at most one task. *)
Lemma processCommand_length now line st :
  (List.length (Cli.tasks (Cli.processCommand now line st))
   <= S (List.length (Cli.tasks st)))%nat.
Proof.
  destruct (processCommand_effect now line st)
    as [E|[(_ & text & _ & E)|(_ & i & _ & E)]]; rewrite E.
  - lia.
  - rewrite TodoFacts.addTask_eq, length_app. simpl. lia.
  - unfold markDone. rewrite length_map. lia.
Qed.

(** The ids stay 1, 2, 3, ... as long as the lines are fewer than 2^53. *)
Lemma run_numbering lines : forall st,
  map id (Cli.tasks st) = Inv.numbering (List.length (Cli.tasks st)) ->
  Z.of_nat (List.length (Cli.tasks st)) + Z.of_nat (List.length lines)
    < JS.two53 ->
  map id (Cli.tasks (Cli.run lines st))
  = Inv.numbering (List.length (Cli.tasks (Cli.run lines st))).
Proof.
  induction lines as [|[now l] r IH]; intros st H B; cbn [Cli.run]; [exact H|].
  destruct (Cli.exited st); [exact H|].
  cbn [List.length] in B.
  pose proof (processCommand_length now l st) as L.
  apply IH; [|lia]. apply processCommand_numbering; [exact H|lia].
Qed.

Lemma processCommand_texts now line st :
  (forall t, In t (Cli.tasks st) -> Inv.console_text (text t)) ->
  forall t, In t (Cli.tasks (Cli.processCommand now line st)) ->
            Inv.console_text (text t).
Proof.
  intro H.
  destruct (processCommand_effect now line st)
    as [E|[(_ & tx & T & E)|(_ & i & _ & E)]]; rewrite E.
  - exact H.
  - rewrite TodoFacts.addTask_eq. intros t I. apply in_app_iff in I.
    destruct I as [I|[<-|[]]]; [now apply H|exact T].
  - intros t I. unfold markDone in I. apply in_map_iff in I.
    destruct I as [u [<- U]]. specialize (H u U).
    now destruct (id u =? i).
Qed.

Lemma keyword_quit now line st :
  Inv.keyword line = "quit" ->
  Cli.processCommand now line st
  = Cli.process_exit 0 (Cli.rl_close (Cli.console_log "Goodbye!" st)).
Proof.
  unfold Inv.keyword, Cli.processCommand. cbv zeta. intros ->. reflexivity.
Qed.

End ConsoleFacts.

(** X1. Marking done under two ids gives the same collection in either
    order. *)
Theorem markDone_commutes (C : list Todo.Task) (i j : Z) :
  Todo.markDone (Todo.markDone C i) j = Todo.markDone (Todo.markDone C j) i.
Proof. apply ModelFacts.markDone_comm. Qed.

(** X2. Adding a task and marking an id done commute, as long as the id is
    not the one the new task receives: the new task gets the same id and
    the same tasks are completed either way. *)
Theorem markDone_addTask_commute
  (now : string) (C : list Todo.Task) (t : string) (i : Z) :
  i <> Web.getNextId C ->
  Todo.markDone (Todo.addTask now C t) i
  = Todo.addTask now (Todo.markDone C i) t.
Proof. apply ModelFacts.markDone_addTask. Qed.

Lemma markDone_addTask_commute_witness :
  let C := [Todo.mkTask 1 "a" false "t1"; Todo.mkTask 2 "b" false "t2"] in
  1 <> Web.getNextId C
  /\ Todo.markDone (Todo.addTask "t3" C "c") 1
     = Todo.addTask "t3" (Todo.markDone C 1) "c".
Proof.
  cbv zeta. split; [discriminate|].
  apply (markDone_addTask_commute "t3"
           [Todo.mkTask 1 "a" false "t1"; Todo.mkTask 2 "b" false "t2"] "c" 1).
  discriminate.
Defined.

(** X3. On a collection whose ids are safe integers, marking done the id
    that [addTask] has just assigned completes the new task and no other. *)
Theorem markDone_of_new_task (now : string) (C : list Todo.Task) (t : string) :
  Spec.safe_ids C ->
  exists newTask,
    Todo.addTask now C t = (C ++ [newTask])%list
    /\ Todo.markDone (Todo.addTask now C t) (Todo.id newTask)
       = (C ++ [Todo.set_completed true newTask])%list.
Proof.
  intro S. exists (Todo.mkTask (Web.getNextId C) t false now).
  split; [apply TodoFacts.addTask_eq|]. now apply ModelFacts.markDone_new.
Qed.

Lemma markDone_of_new_task_witness :
  Spec.safe_ids Inv.sample_tasks
  /\ exists newTask,
       Todo.addTask "t" Inv.sample_tasks "feed cat"
         = (Inv.sample_tasks ++ [newTask])%list
       /\ Todo.markDone (Todo.addTask "t" Inv.sample_tasks "feed cat")
            (Todo.id newTask)
          = (Inv.sample_tasks ++ [Todo.set_completed true newTask])%list.
Proof.
  assert (S : Spec.safe_ids Inv.sample_tasks).
  { intros x [<-|[<-|[]]]; reflexivity. }
  split; [exact S|].
  apply (markDone_of_new_task "t" Inv.sample_tasks "feed cat" S).
Defined.

(** X4. A command whose keyword is neither add nor done (list, help, quit,
    a blank line, an unknown word) leaves the tasks as they are. *)
Theorem other_commands_keep_tasks (now line : string) (st : Cli.State) :
  Inv.keyword line <> "add" -> Inv.keyword line <> "done" ->
  Cli.tasks (Cli.processCommand now line st) = Cli.tasks st.
Proof.
  intros A D.
  destruct (ConsoleFacts.processCommand_effect now line st)
    as [E|[(K & _)|(K & _)]]; [exact E|contradiction|contradiction].
Qed.

Lemma other_commands_keep_tasks_witness :
  Inv.keyword " List " <> "add" /\ Inv.keyword " List " <> "done"
  /\ Cli.tasks (Cli.processCommand "t" " List " Spec.two_tasks)
     = Cli.tasks Spec.two_tasks.
Proof.
  split; [discriminate|]. split; [discriminate|].
  apply (other_commands_keep_tasks "t" " List " Spec.two_tasks); discriminate.
Defined.

(** X5. A line of nothing but white space does nothing: no task changes
    and nothing is printed. *)
Theorem blank_line_is_ignored (now line : string) (st : Cli.State) :
  Inv.all_white_space line = true -> Cli.processCommand now line st = st.
Proof.
  intro H. unfold Cli.processCommand.
  rewrite (ConsoleFacts.trim_all_white_space line H). reflexivity.
Qed.

Lemma blank_line_is_ignored_witness :
  let line := String " " (String "009" EmptyString) in
  Inv.all_white_space line = true
  /\ Cli.processCommand "t" line Spec.two_tasks = Spec.two_tasks.
Proof.
  cbv zeta. split; [reflexivity|].
  apply (blank_line_is_ignored "t" (String " " (String "009" EmptyString))
           Spec.two_tasks).
  reflexivity.
Defined.

(** X6. [done] followed by the decimal text of a safe integer n (magnitude
    below 2^53), as [list] prints ids, is read back as n: when a task has
    id n, the tasks with that id are marked done and the confirmation is
    printed; when none has, the not-found error is printed and the tasks
    are unchanged. *)
Theorem done_with_printed_id
  (now line : string) (st : Cli.State) (kw : string) (n : Z) :
  JS.safe n ->
  JS.trim line = kw ++ String " " (JS.Number_toString n) ->
  JS.toLowerCase kw = "done" ->
  Cli.processCommand now line st =
    if existsb (fun t => Todo.id t =? n) (Cli.tasks st) then
      Cli.console_log ("Task " ++ JS.Number_toString n ++ " marked as done!")
        (Cli.set_tasks (Todo.markDone (Cli.tasks st) n) st)
    else
      Cli.console_log
        ("Error: Task with ID " ++ JS.Number_toString n ++ " not found.") st.
Proof.
  intros SF T K.
  rewrite (CliFacts.processCommand_done now line st kw _ T K). cbv zeta.
  rewrite TrimFacts.trim_Number_toString,
    (TrimFacts.parseInt_Number_toString n SF).
  destruct (JSONFacts.Number_toString_head n) as [c [r [E _]]].
  rewrite E at 1. cbn [String.eqb].
  now destruct (existsb _ _).
Qed.

Lemma done_with_printed_id_witness :
  JS.safe 2
  /\ JS.trim "DONE 2 " = "DONE" ++ String " " (JS.Number_toString 2)
  /\ map Todo.completed
       (Cli.tasks (Cli.processCommand "t" "DONE 2 " Spec.two_tasks))
     = [false; true].
Proof.
  split; [reflexivity|]. split; [reflexivity|].
  rewrite (done_with_printed_id "t" "DONE 2 " Spec.two_tasks "DONE" 2
             eq_refl eq_refl eq_refl).
  reflexivity.
Defined.

(** X7. The keyword add with nothing after it is rejected: the empty-text
    error is printed and the tasks are unchanged. *)
Theorem add_without_text_is_rejected
  (now line : string) (st : Cli.State) :
  JS.toLowerCase (JS.trim line) = "add" ->
  Cli.processCommand now line st =
    Cli.console_log
      "Error: Task text cannot be empty. Use: add <task text>" st.
Proof.
  intro K. unfold Cli.processCommand.
  rewrite (StringFacts.split_no_sep " " (JS.trim line))
    by (now apply (CliFacts.keyword_no_space _ "add")).
  cbn [hd]. rewrite K. reflexivity.
Qed.

Lemma add_without_text_is_rejected_witness :
  JS.toLowerCase (JS.trim "  Add  ") = "add"
  /\ Cli.tasks (Cli.processCommand "t" "  Add  " Spec.two_tasks)
     = Cli.tasks Spec.two_tasks.
Proof.
  split; [reflexivity|].
  now rewrite (add_without_text_is_rejected "t" "  Add  " Spec.two_tasks eq_refl).
Defined.

(** X8. The keyword is read without regard to letter case: two lines that
    differ only in the case of their first word are the same command. *)
Theorem keyword_case_is_ignored
  (now line line' : string) (st : Cli.State) (kw kw' rest : string) :
  JS.trim line = kw ++ String " " rest ->
  JS.trim line' = kw' ++ String " " rest ->
  Spec.has_char " " kw = false -> Spec.has_char " " kw' = false ->
  JS.toLowerCase kw = JS.toLowerCase kw' ->
  Cli.processCommand now line st = Cli.processCommand now line' st.
Proof.
  intros T T' S S' E. unfold Cli.processCommand. rewrite T, T'.
  rewrite !CliFacts.parts_of_command by assumption.
  cbn [hd JS.slice1 tl]. now rewrite E.
Qed.

Lemma keyword_case_is_ignored_witness :
  JS.toLowerCase "DoNe" = JS.toLowerCase "done"
  /\ Cli.processCommand "t" "DoNe 1" Spec.two_tasks
     = Cli.processCommand "t" "done 1" Spec.two_tasks.
Proof.
  split; [reflexivity|].
  apply (keyword_case_is_ignored "t" "DoNe 1" "done 1" Spec.two_tasks
           "DoNe" "done" "1"); reflexivity.
Defined.

(** X9. The keyword quit prints the farewell (once by the command, once
    by the close listener), exits with code 0 and leaves the tasks as they
    are; no later line is processed. *)
Theorem quit_ends_the_run
  (now line : string) (st : Cli.State) (later : list (string * string)) :
  Inv.keyword line = "quit" -> Cli.exited st = None ->
  let st' := Cli.run ((now, line) :: later) st in
  Cli.exited st' = Some 0
  /\ Cli.tasks st' = Cli.tasks st
  /\ Cli.stdout st'
     = (Cli.stdout st ++ ["Goodbye!"; (JS.LF ++ "Goodbye!")%string])%list
  /\ st' = Cli.processCommand now line st.
Proof.
  intros K X. cbn [Cli.run]. rewrite X.
  rewrite (ConsoleFacts.keyword_quit now line st K).
  rewrite (ConsoleFacts.run_exited later
             (Cli.process_exit 0
                (Cli.rl_close (Cli.console_log "Goodbye!" st))) 0 eq_refl).
  split; [reflexivity|]. split; [reflexivity|]. split; [|reflexivity].
  cbn [Cli.process_exit Cli.rl_close Cli.console_log Cli.stdout].
  now rewrite <- app_assoc.
Qed.

Lemma quit_ends_the_run_witness :
  Inv.keyword " Quit" = "quit"
  /\ Cli.tasks (Cli.run [("t", " Quit"); ("u", "add more")] Spec.two_tasks)
     = Cli.tasks Spec.two_tasks
  /\ Cli.stdout (Cli.run [("t", " Quit"); ("u", "add more")] Spec.two_tasks)
     = (Cli.stdout Spec.two_tasks
        ++ ["Goodbye!"; (JS.LF ++ "Goodbye!")%string])%list.
Proof.
  split; [reflexivity|].
  destruct (quit_ends_the_run "t" " Quit" Spec.two_tasks [("u", "add more")]
              eq_refl eq_refl) as (_ & T & O & _).
  split; [exact T|exact O].
Defined.

(** X10. Whatever lines the console reads, it never removes, reorders or
    edits a task and never un-marks one: every task present before is at
    its position afterwards with its id, text and createdAt, and completed
    if it was. *)
Theorem console_never_loses_a_task
  (lines : list (string * string)) (st : Cli.State) :
  Inv.continues (Cli.tasks st) (Cli.tasks (Cli.run lines st)).
Proof.
  revert st. induction lines as [|[now l] r IH]; intro st; cbn [Cli.run].
  - apply ModelFacts.continues_refl.
  - destruct (Cli.exited st); [apply ModelFacts.continues_refl|].
    eapply ModelFacts.continues_trans;
      [apply ConsoleFacts.processCommand_continues|apply IH].
Qed.

(** X11. Started empty, over fewer than 2^53 lines, the console numbers
    its tasks 1, 2, 3, ... in order, so ids are positive and distinct, and
    no stored text is empty or ends in white space. *)
Theorem console_ids_and_texts (lines : list (string * string)) :
  Z.of_nat (List.length lines) < JS.two53 ->
  let C := Cli.tasks (Cli.run lines Cli.initial) in
  map Todo.id C = Inv.numbering (List.length C)
  /\ Spec.unique_ids C
  /\ (forall t, In t C -> 1 <= Todo.id t)
  /\ (forall t, In t C -> Inv.console_text (Todo.text t)).
Proof.
  intro B. cbv zeta.
  assert (N : map Todo.id (Cli.tasks (Cli.run lines Cli.initial))
              = Inv.numbering
                  (List.length (Cli.tasks (Cli.run lines Cli.initial)))).
  { apply ConsoleFacts.run_numbering; [reflexivity|exact B]. }
  split; [exact N|]. split; [|split].
  - unfold Spec.unique_ids. rewrite N. apply ModelFacts.NoDup_numbering.
  - intros t I. apply (in_map Todo.id) in I. rewrite N in I.
    apply ModelFacts.numbering_bounds in I. lia.
  - apply (ConsoleFacts.run_invariant
             (fun C => forall t, In t C -> Inv.console_text (Todo.text t)));
      [apply ConsoleFacts.processCommand_texts|]. intros t [].
Qed.

Lemma console_ids_and_texts_witness :
  let lines := [("t1", "add buy milk"); ("t2", "done 1"); ("t3", "add walk dog")] in
  Z.of_nat (List.length lines) < JS.two53
  /\ map Todo.id (Cli.tasks (Cli.run lines Cli.initial)) = [1; 2].
Proof.
  cbv zeta. split; [reflexivity|].
  destruct (console_ids_and_texts
              [("t1", "add buy milk"); ("t2", "done 1"); ("t3", "add walk dog")]
              eq_refl) as [N _].
  rewrite N. reflexivity.
Defined.

Module PageFacts.

Import Todo.

Lemma toggle_found_again i C C' :
  Web.toggle_found i C = Some C' -> Web.toggle_found i C' = Some C.
Proof.
  revert C'. induction C as [|t ts IH]; intro C'; simpl; [discriminate|].
  destruct (id t =? i) eqn:E.
  - intros [= <-]. simpl. rewrite E. cbn [completed set_completed].
    rewrite negb_involutive. f_equal. f_equal. now destruct t.
  - destruct (Web.toggle_found i ts) as [r|]; [|discriminate].
    intros [= <-]. simpl. rewrite E, (IH r eq_refl). reflexivity.
Qed.

Lemma toggle_found_none i C :
  Web.toggle_found i C = None <-> (forall t, In t C -> id t <> i).
Proof.
  induction C as [|t ts IH]; simpl; [split; [intros _ t []|reflexivity]|].
  destruct (Z.eqb_spec (id t) i) as [E|E].
  - split; [discriminate|]. intro H. exfalso. apply (H t); auto.
  - destruct (Web.toggle_found i ts) as [r|]; cbn [option_map].
    + split; [discriminate|]. intro H. exfalso.
      destruct IH as [_ IH]. discriminate IH. intros u U. apply H. now right.
    + split; [|reflexivity]. intros _ u [<-|U]; [exact E|].
      destruct IH as [IH _]. now apply IH.
Qed.

(** With distinct ids, the task found is the one at the position asked. *)
Lemma toggle_found_at C : forall k t,
  Spec.unique_ids C -> nth_error C k = Some t ->
  Web.toggle_found (id t) C = Some (Inv.toggle_at k C).
Proof.
  unfold Spec.unique_ids, Inv.toggle_at.
  induction C as [|u us IH]; intros k t U N; [now destruct k|].
  inversion U as [|x l Hx Hl]; subst. destruct k as [|k]; simpl in N.
  - injection N as ->. simpl. now rewrite Z.eqb_refl.
  - simpl. rewrite N.
    destruct (Z.eqb_spec (id u) (id t)) as [E|E].
    + exfalso. apply Hx. rewrite E. apply in_map. eapply nth_error_In, N.
    + specialize (IH k t Hl N). rewrite N in IH. now rewrite IH.
Qed.

Lemma toggle_found_markDone C : forall t,
  Spec.unique_ids C -> In t C -> completed t = false ->
  Web.toggle_found (id t) C = Some (markDone C (id t)).
Proof.
  unfold Spec.unique_ids.
  induction C as [|u us IH]; intros t U I O; [destruct I|].
  inversion U as [|x l Hx Hl]; subst. simpl.
  destruct (Z.eqb_spec (id u) (id t)) as [E|E].
  - assert (t = u) as ->.
    { destruct I as [I|I]; [now symmetry|]. exfalso. apply Hx.
      rewrite E. now apply in_map. }
    rewrite O. cbn [negb]. f_equal. f_equal. symmetry.
    apply TodoFacts.markDone_absent. intros v V W. apply Hx.
    rewrite <- W. now apply in_map.
  - destruct I as [I|I]; [congruence|].
    now rewrite (IH t Hl I O).
Qed.

Lemma filter_other_ids_at C : forall k t,
  Spec.unique_ids C -> nth_error C k = Some t ->
  filter (fun u => negb (id u =? id t)) C = Inv.remove_at k C.
Proof.
  unfold Spec.unique_ids, Inv.remove_at.
  induction C as [|u us IH]; intros k t U N; [now destruct k|].
  inversion U as [|x l Hx Hl]; subst. destruct k as [|k]; simpl in N.
  - injection N as ->. simpl. rewrite Z.eqb_refl. cbn [negb].
    apply forallb_filter_id. apply forallb_forall. intros v V.
    destruct (Z.eqb_spec (id v) (id t)) as [E|E]; [|reflexivity].
    exfalso. apply Hx. rewrite <- E. now apply in_map.
  - simpl. destruct (Z.eqb_spec (id u) (id t)) as [E|E].
    + exfalso. apply Hx. rewrite E. apply in_map. eapply nth_error_In, N.
    + cbn [negb]. f_equal. now apply IH.
Qed.

(** The item at a position of the rendering shows the task at that
    position. *)
Lemma rendered_item C k item :
  nth_error (Page.renderTasks C) k = Some (Page.Task_item item) ->
  exists t, nth_error C k = Some t
            /\ Page.on_change item = id t /\ Page.on_delete item = id t
            /\ Page.checked item = completed t
            /\ Page.textContent item = text t.
Proof.
  unfold Page.renderTasks. destruct C as [|u us].
  - destruct k as [|[|k]]; discriminate.
  - cbn [List.length Nat.eqb]. rewrite nth_error_map.
    destruct (nth_error (u :: us) k) as [t|]; [|discriminate].
    intros [= <-]. exists t. repeat split.
Qed.

(** *** The store follows the tasks *)

Lemma loadTasks_storage st :
  Web.localStorage (Web.loadTasks st) = Web.localStorage st.
Proof.
  unfold Web.loadTasks. destruct (Web.localStorage st) as [blob|] eqn:L; [|exact L].
  destruct (String.eqb blob EmptyString); [exact L|].
  destruct (JSON.parse blob); exact L.
Qed.

Lemma reload_same_init stored : Inv.reload_same (Web.init stored).
Proof.
  unfold Inv.reload_same. unfold Web.init at 2. rewrite loadTasks_storage.
  reflexivity.
Qed.

Lemma reload_same_saved C st :
  Inv.reload_same (Web.saveTasks (Web.set_tasks (Web.tasks_value C) st)).
Proof.
  unfold Inv.reload_same, Web.init.
  change (Web.localStorage
            (Web.saveTasks (Web.set_tasks (Web.tasks_value C) st)))
    with (Some (JSON.stringify (Web.tasks_value C))).
  rewrite (WebFacts.loadTasks_stored
             (Web.startup (Some (JSON.stringify (Web.tasks_value C))))
             (JSON.stringify (Web.tasks_value C)) (Web.tasks_value C)
             eq_refl (JSONFacts.parse_stringify_tasks C)).
  reflexivity.
Qed.

Lemma reload_same_input s st :
  Inv.reload_same st -> Inv.reload_same (Web.set_taskInput s st).
Proof. exact (fun H => H). Qed.

Lemma handle_reload_same now e st st' :
  Inv.reload_same st -> Page.handle now e st = Some st' -> Inv.reload_same st'.
Proof.
  intro R.
  assert (A : Web.addTask now st = Some st' -> Inv.reload_same st').
  { unfold Web.addTask. destruct (String.eqb _ EmptyString); [now intros [= <-]|].
    destruct (Web.as_tasks (Web.tasks st)) as [C|]; [|discriminate].
    intros [= <-]. apply reload_same_input, reload_same_saved. }
  destruct e as [v| |key|i|i|]; cbn [Page.handle].
  - now intros [= <-].
  - exact A.
  - destruct (String.eqb key "Enter"); [exact A|now intros [= <-]].
  - unfold Web.toggleTask.
    destruct (Web.as_tasks (Web.tasks st)) as [C|]; [|discriminate].
    destruct (Web.toggle_found i C); intros [= <-];
      [apply reload_same_saved|exact R].
  - unfold Web.deleteTask.
    destruct (Web.as_tasks (Web.tasks st)) as [C|]; [|discriminate].
    intros [= <-]. apply reload_same_saved.
  - unfold Web.clearCompleted.
    destruct (Web.as_tasks (Web.tasks st)) as [C|]; [|discriminate].
    intros [= <-]. apply reload_same_saved.
Qed.

Lemma session_reload_same events : forall st st',
  Inv.reload_same st -> Page.session events st = Some st' ->
  Inv.reload_same st'.
Proof.
  induction events as [|[now e] r IH]; intros st st' R; cbn [Page.session].
  - now intros [= <-].
  - destruct (Page.handle now e st) as [st1|] eqn:H; [|discriminate].
    apply IH. eapply handle_reload_same; eauto.
Qed.



(** *** The page stays well formed *)

Lemma page_ok_of_below b st : Inv.page_ok_below b st -> Inv.page_ok st.
Proof. intros [_ [C (A & U & T & _)]]. exists C. auto. Qed.

Lemma page_ok_below_saved b C st :
  0 <= b -> Spec.unique_ids C ->
  (forall t, In t C -> Inv.page_text (text t)) ->
  (forall t, In t C -> Z.abs (id t) <= b) ->
  Inv.page_ok_below b (Web.saveTasks (Web.set_tasks (Web.tasks_value C) st)).
Proof.
  intros P U T B. split; [exact P|]. exists C.
  split; [apply WebFacts.saved_tasks|auto].
Qed.

Lemma page_ok_below_input b s st :
  Inv.page_ok_below b st -> Inv.page_ok_below b (Web.set_taskInput s st).
Proof. exact (fun H => H). Qed.

Lemma page_ok_below_mono b b' st :
  b <= b' -> Inv.page_ok_below b st -> Inv.page_ok_below b' st.
Proof.
  intros L [P [C (A & U & T & B)]]. split; [lia|]. exists C.
  split; [exact A|]. split; [exact U|]. split; [exact T|].
  intros t I. specialize (B t I). lia.
Qed.

Lemma toggle_found_texts i C C' :
  Web.toggle_found i C = Some C' -> map text C' = map text C.
Proof.
  revert C'. induction C as [|t ts IH]; intro C'; simpl; [discriminate|].
  destruct (id t =? i); [intros [= <-]; reflexivity|].
  destruct (Web.toggle_found i ts) as [r|]; [|discriminate].
  intros [= <-]. simpl. f_equal. now apply IH.
Qed.

(** The id assigned stays within the bound, one higher. *)
Lemma getNextId_below b C :
  0 <= b -> b < JS.two53 ->
  (forall t, In t C -> Z.abs (id t) <= b) ->
  Spec.safe_ids C /\ Z.abs (Web.getNextId C) <= b + 1.
Proof.
  intros P L B.
  assert (S : Spec.safe_ids C).
  { intros x I. apply in_map_iff in I. destruct I as [t [<- I]].
    specialize (B t I). unfold JS.safe. lia. }
  split; [exact S|]. destruct C as [|t ts]; [cbn; lia|].
  rewrite (TodoFacts.getNextId_exact t ts S).
  pose proof (JSFacts.Math_max_in (id t) (map id ts)) as I.
  change (id t :: map id ts) with (map id (t :: ts)) in I.
  apply in_map_iff in I. destruct I as [u [E I]]. specialize (B u I). lia.
Qed.

Lemma handle_page_ok now e st b :
  Inv.page_ok_below b st -> b < JS.two53 ->
  exists st', Page.handle now e st = Some st'
              /\ Inv.page_ok_below (b + 1) st'.
Proof.
  intros OK L.
  assert (OK1 : Inv.page_ok_below (b + 1) st)
    by (apply (page_ok_below_mono b); [lia|exact OK]).
  destruct OK as [P [C (A & U & T & B)]].
  assert (F : forall p, Inv.page_ok_below (b + 1)
            (Web.saveTasks (Web.set_tasks (Web.tasks_value (filter p C)) st))).
  { intro p. apply page_ok_below_saved; [lia|now apply WebFacts.unique_filter| |].
    - intros t I. apply filter_In in I. now apply T.
    - intros t I. apply filter_In in I. destruct I as [I _].
      specialize (B t I). lia. }
  assert (AD : exists st', Web.addTask now st = Some st'
                           /\ Inv.page_ok_below (b + 1) st').
  { unfold Web.addTask.
    destruct (String.eqb_spec (JS.trim (Web.taskInput st)) EmptyString) as [E|E].
    - now exists st.
    - rewrite A. eexists. split; [reflexivity|].
      destruct (getNextId_below b C P L B) as [S G].
      apply page_ok_below_input, page_ok_below_saved; [lia| | |].
      + apply WebFacts.unique_snoc; [exact U|now apply WebFacts.next_id_not_in].
      + intros t I. apply in_app_iff in I. destruct I as [I|[<-|[]]]; [auto|].
        split; [exact E|apply TrimFacts.trim_idem].
      + intros t I. apply in_app_iff in I. destruct I as [I|[<-|[]]].
        * specialize (B t I). lia.
        * exact G. }
  destruct e as [v| |key|i|i|]; cbn [Page.handle].
  - eexists. split; [reflexivity|]. now apply page_ok_below_input.
  - exact AD.
  - destruct (String.eqb key "Enter"); [exact AD|now exists st].
  - unfold Web.toggleTask. rewrite A.
    destruct (Web.toggle_found i C) as [C'|] eqn:G; [|now exists st].
    eexists. split; [reflexivity|]. apply page_ok_below_saved; [lia| | |].
    + unfold Spec.unique_ids. now rewrite (WebFacts.toggle_found_ids _ _ _ G).
    + intros t I. apply (in_map text) in I.
      rewrite (toggle_found_texts _ _ _ G) in I. apply in_map_iff in I.
      destruct I as [u [<- V]]. auto.
    + intros t I. apply (in_map id) in I.
      rewrite (WebFacts.toggle_found_ids _ _ _ G) in I. apply in_map_iff in I.
      destruct I as [u [<- V]]. specialize (B u V). lia.
  - unfold Web.deleteTask. rewrite A. eexists. split; [reflexivity|apply F].
  - unfold Web.clearCompleted. rewrite A. eexists. split; [reflexivity|apply F].
Qed.

Lemma session_page_ok events : forall st b,
  Inv.page_ok_below b st ->
  b + Z.of_nat (List.length events) < JS.two53 ->
  exists st', Page.session events st = Some st'
              /\ Inv.page_ok_below (b + Z.of_nat (List.length events)) st'.
Proof.
  induction events as [|[now e] r IH]; intros st b P L; cbn [Page.session].
  - exists st. split; [reflexivity|]. cbn [List.length]. now rewrite Z.add_0_r.
  - cbn [List.length] in *.
    destruct (handle_page_ok now e st b P) as [st1 [-> P1]]; [lia|].
    destruct (IH st1 (b + 1) P1) as [st' [R P']]; [lia|].
    exists st'. split; [exact R|].
    replace (b + Z.of_nat (S (List.length r)))
      with (b + 1 + Z.of_nat (List.length r)) by lia.
    exact P'.
Qed.

Lemma page_ok_fresh : Inv.page_ok_below 0 (Web.init None).
Proof.
  split; [lia|]. exists []. split; [reflexivity|].
  split; [constructor|]. split; intros t [].
Qed.

Lemma sample_unique : Spec.unique_ids Inv.sample_tasks.
Proof.
  unfold Spec.unique_ids. cbn.
  constructor; [intros [H|[]]; discriminate|].
  constructor; [intros []|constructor].
Qed.

End PageFacts.

(** X12. On the page, an input of nothing but white space adds nothing and
    saves nothing; any other input appends the task that [addTask] of the
    task model appends for the trimmed input, empties the text field and
    writes the new array to the store. *)
Theorem page_add_matches_model (now : string) (st : Web.State) :
  (JS.trim (Web.taskInput st) = EmptyString -> Web.addTask now st = Some st)
  /\ (forall C,
        Web.as_tasks (Web.tasks st) = Some C ->
        JS.trim (Web.taskInput st) <> EmptyString ->
        exists st',
          Web.addTask now st = Some st'
          /\ Web.as_tasks (Web.tasks st')
             = Some (Todo.addTask now C (JS.trim (Web.taskInput st)))
          /\ Web.taskInput st' = EmptyString
          /\ Web.localStorage st' = Some (JSON.stringify (Web.tasks st'))).
Proof.
  split.
  - intro E. unfold Web.addTask. now rewrite E.
  - intros C A N. unfold Web.addTask. rewrite A.
    destruct (String.eqb_spec (JS.trim (Web.taskInput st)) EmptyString);
      [contradiction|].
    eexists. split; [reflexivity|]. rewrite TodoFacts.addTask_eq.
    cbn [Web.set_taskInput Web.saveTasks Web.setItem Web.set_tasks Web.tasks
         Web.taskInput Web.localStorage].
    split; [apply WebFacts.as_tasks_value|]. now split.
Qed.

(** X13. Toggling the same id twice gives the collection back. *)
Theorem toggle_twice_restores (i : Z) (st : Web.State) (C : list Todo.Task) :
  Web.as_tasks (Web.tasks st) = Some C ->
  exists st1 st2,
    Web.toggleTask i st = Some st1
    /\ Web.toggleTask i st1 = Some st2
    /\ Web.as_tasks (Web.tasks st2) = Some C.
Proof.
  intro A. unfold Web.toggleTask at 1. rewrite A.
  destruct (Web.toggle_found i C) as [C'|] eqn:G.
  - eexists. eexists. split; [reflexivity|]. unfold Web.toggleTask.
    rewrite WebFacts.saved_tasks, (PageFacts.toggle_found_again i C C' G).
    split; [reflexivity|]. apply WebFacts.saved_tasks.
  - exists st, st. split; [reflexivity|]. unfold Web.toggleTask.
    now rewrite A, G.
Qed.

Lemma toggle_twice_restores_witness :
  Web.as_tasks (Web.tasks Inv.sample_page) = Some Inv.sample_tasks
  /\ exists st1 st2,
       Web.toggleTask 2 Inv.sample_page = Some st1
       /\ Web.toggleTask 2 st1 = Some st2
       /\ Web.as_tasks (Web.tasks st2) = Some Inv.sample_tasks.
Proof.
  split; [reflexivity|].
  apply (toggle_twice_restores 2 Inv.sample_page Inv.sample_tasks eq_refl).
Defined.

(** X14. With distinct ids, toggling an open task on the page gives the
    collection that [markDone] of the task model gives for its id. *)
Theorem toggle_open_task_is_markDone
  (st : Web.State) (C : list Todo.Task) (t : Todo.Task) :
  Web.as_tasks (Web.tasks st) = Some C ->
  Spec.unique_ids C -> In t C -> Todo.completed t = false ->
  exists st',
    Web.toggleTask (Todo.id t) st = Some st'
    /\ Web.as_tasks (Web.tasks st') = Some (Todo.markDone C (Todo.id t)).
Proof.
  intros A U I O. unfold Web.toggleTask.
  rewrite A, (PageFacts.toggle_found_markDone C t U I O).
  eexists. split; [reflexivity|apply WebFacts.saved_tasks].
Qed.

Lemma toggle_open_task_is_markDone_witness :
  Spec.unique_ids Inv.sample_tasks
  /\ exists st',
       Web.toggleTask 1 Inv.sample_page = Some st'
       /\ Web.as_tasks (Web.tasks st')
          = Some (Todo.markDone Inv.sample_tasks 1).
Proof.
  split; [exact PageFacts.sample_unique|].
  apply (toggle_open_task_is_markDone Inv.sample_page Inv.sample_tasks
           (Todo.mkTask 1 "buy milk" false "2024-01-01T10:00:00.000Z")
           eq_refl PageFacts.sample_unique (or_introl eq_refl) eq_refl).
Defined.

(** X15. [deleteTask] removes the tasks that carry the id and no other,
    and writes the result to the store even when nothing was removed; for
    an id no task carries the collection is unchanged. *)
Theorem delete_removes_the_id (i : Z) (st : Web.State) (C : list Todo.Task) :
  Web.as_tasks (Web.tasks st) = Some C ->
  exists st' C',
    Web.deleteTask i st = Some st'
    /\ Web.as_tasks (Web.tasks st') = Some C'
    /\ (forall t, In t C' <-> In t C /\ Todo.id t <> i)
    /\ ((forall t, In t C -> Todo.id t <> i) -> C' = C)
    /\ Web.localStorage st' = Some (JSON.stringify (Web.tasks_value C')).
Proof.
  intro A. unfold Web.deleteTask. rewrite A.
  eexists. eexists. split; [reflexivity|].
  split; [apply WebFacts.saved_tasks|]. split; [|split; [|reflexivity]].
  - intro t. rewrite filter_In, negb_true_iff, Z.eqb_neq. tauto.
  - intro H. apply forallb_filter_id. apply forallb_forall. intros t I.
    apply negb_true_iff, Z.eqb_neq. now apply H.
Qed.

Lemma delete_removes_the_id_witness :
  Web.as_tasks (Web.tasks Inv.sample_page) = Some Inv.sample_tasks
  /\ exists st' C',
       Web.deleteTask 1 Inv.sample_page = Some st'
       /\ Web.as_tasks (Web.tasks st') = Some C'
       /\ (forall t, In t C' <-> In t Inv.sample_tasks /\ Todo.id t <> 1).
Proof.
  split; [reflexivity|].
  destruct (delete_removes_the_id 1 Inv.sample_page Inv.sample_tasks eq_refl)
    as (st' & C' & D & A & I & _).
  exists st', C'. auto.
Defined.

(** X16. [clearCompleted] keeps exactly the open tasks; clearing again
    changes nothing more, and a collection without completed tasks is
    unchanged. *)
Theorem clear_keeps_open_tasks (st : Web.State) (C : list Todo.Task) :
  Web.as_tasks (Web.tasks st) = Some C ->
  exists st' C',
    Web.clearCompleted st = Some st'
    /\ Web.as_tasks (Web.tasks st') = Some C'
    /\ (forall t, In t C' <-> In t C /\ Todo.completed t = false)
    /\ ((forall t, In t C -> Todo.completed t = false) -> C' = C)
    /\ Web.clearCompleted st' = Some st'.
Proof.
  intro A. unfold Web.clearCompleted at 1. rewrite A.
  eexists. eexists. split; [reflexivity|].
  split; [apply WebFacts.saved_tasks|]. split; [|split].
  - intro t. rewrite filter_In, negb_true_iff. tauto.
  - intro H. apply forallb_filter_id. apply forallb_forall. intros t I.
    apply negb_true_iff. now apply H.
  - unfold Web.clearCompleted. rewrite WebFacts.saved_tasks.
    assert (F : forall (p : Todo.Task -> bool) l,
              filter p (filter p l) = filter p l).
    { intros p l. apply forallb_filter_id. apply forallb_forall.
      intros x I. now apply filter_In in I. }
    rewrite F. reflexivity.
Qed.

Lemma clear_keeps_open_tasks_witness :
  Web.as_tasks (Web.tasks Inv.sample_page) = Some Inv.sample_tasks
  /\ exists st' C',
       Web.clearCompleted Inv.sample_page = Some st'
       /\ Web.as_tasks (Web.tasks st') = Some C'
       /\ Web.clearCompleted st' = Some st'.
Proof.
  split; [reflexivity|].
  destruct (clear_keeps_open_tasks Inv.sample_page Inv.sample_tasks eq_refl)
    as (st' & C' & D & A & _ & _ & K).
  exists st', C'. auto.
Defined.


(** X18. A page that holds a task array with distinct ids of magnitude at
    most b and trimmed, non-empty texts handles every sequence of events,
    as long as b plus the number of events stays below 2^53, and still
    holds such an array afterwards (the bound grown by the number of
    events); the page opened on an empty store is one with b = 0, and so is
    the page reopened on what it stored. *)
Theorem page_stays_well_formed :
  (forall events st b,
     Inv.page_ok_below b st ->
     b + Z.of_nat (List.length events) < JS.two53 ->
     exists st',
       Page.session events st = Some st'
       /\ Inv.page_ok_below (b + Z.of_nat (List.length events)) st'
       /\ Inv.page_ok st')
  /\ (forall events,
        Z.of_nat (List.length events) < JS.two53 ->
        exists st', Page.session events (Web.init None) = Some st'
                    /\ Inv.page_ok st'
                    /\ Inv.page_ok (Web.init (Web.localStorage st'))).
Proof.
  split.
  - intros events st b P L.
    destruct (PageFacts.session_page_ok events st b P L) as [st' [S P']].
    exists st'. split; [exact S|]. split; [exact P'|].
    exact (PageFacts.page_ok_of_below _ _ P').
  - intros events L.
    destruct (PageFacts.session_page_ok events (Web.init None) 0
                PageFacts.page_ok_fresh L) as [st' [S P']].
    apply PageFacts.page_ok_of_below in P'.
    exists st'. split; [exact S|]. split; [exact P'|].
    pose proof (PageFacts.session_reload_same events (Web.init None) st'
                  (PageFacts.reload_same_init None) S) as R.
    destruct P' as [C (A & U & T)]. exists C. unfold Inv.reload_same in R.
    rewrite R. auto.
Qed.

(** X19. With distinct ids, the checkbox of the item at a position of the
    rendered list toggles the task at that position and no other. *)
Theorem checkbox_toggles_its_task
  (now : string) (st : Web.State) (C : list Todo.Task)
  (k : nat) (item : Page.task_item) :
  Web.as_tasks (Web.tasks st) = Some C ->
  Spec.unique_ids C ->
  nth_error (Page.renderTasks C) k = Some (Page.Task_item item) ->
  exists st',
    Page.handle now (Page.CheckboxChange (Page.on_change item)) st = Some st'
    /\ Web.as_tasks (Web.tasks st') = Some (Inv.toggle_at k C).
Proof.
  intros A U R.
  destruct (PageFacts.rendered_item C k item R) as (t & N & -> & _).
  cbn [Page.handle]. unfold Web.toggleTask.
  rewrite A, (PageFacts.toggle_found_at C k t U N).
  eexists. split; [reflexivity|apply WebFacts.saved_tasks].
Qed.

Lemma checkbox_toggles_its_task_witness :
  nth_error (Page.renderTasks Inv.sample_tasks) 1
  = Some (Page.Task_item
            (Page.mkItem ["task-item"; "completed"] true 2 "walk dog" 2))
  /\ exists st',
       Page.handle "t" (Page.CheckboxChange 2) Inv.sample_page = Some st'
       /\ Web.as_tasks (Web.tasks st')
          = Some (Inv.toggle_at 1 Inv.sample_tasks).
Proof.
  split; [reflexivity|].
  apply (checkbox_toggles_its_task "t" Inv.sample_page Inv.sample_tasks 1
           (Page.mkItem ["task-item"; "completed"] true 2 "walk dog" 2)
           eq_refl PageFacts.sample_unique eq_refl).
Defined.

(** X20. With distinct ids, the delete button of the item at a position of
    the rendered list removes the task at that position and no other. *)
Theorem delete_button_removes_its_task
  (now : string) (st : Web.State) (C : list Todo.Task)
  (k : nat) (item : Page.task_item) :
  Web.as_tasks (Web.tasks st) = Some C ->
  Spec.unique_ids C ->
  nth_error (Page.renderTasks C) k = Some (Page.Task_item item) ->
  exists st',
    Page.handle now (Page.DeleteClick (Page.on_delete item)) st = Some st'
    /\ Web.as_tasks (Web.tasks st') = Some (Inv.remove_at k C).
Proof.
  intros A U R.
  destruct (PageFacts.rendered_item C k item R) as (t & N & _ & -> & _).
  cbn [Page.handle]. unfold Web.deleteTask.
  rewrite A, (PageFacts.filter_other_ids_at C k t U N).
  eexists. split; [reflexivity|apply WebFacts.saved_tasks].
Qed.

Lemma delete_button_removes_its_task_witness :
  nth_error (Page.renderTasks Inv.sample_tasks) 0
  = Some (Page.Task_item (Page.mkItem ["task-item"] false 1 "buy milk" 1))
  /\ exists st',
       Page.handle "t" (Page.DeleteClick 1) Inv.sample_page = Some st'
       /\ Web.as_tasks (Web.tasks st')
          = Some (Inv.remove_at 0 Inv.sample_tasks).
Proof.
  split; [reflexivity|].
  apply (delete_button_removes_its_task "t" Inv.sample_page Inv.sample_tasks 0
           (Page.mkItem ["task-item"] false 1 "buy milk" 1)
           eq_refl PageFacts.sample_unique eq_refl).
Defined.

(** X21. Toggling an id that no task carries changes nothing: the page and
    the store are left as they are. *)
Theorem toggle_absent_id_does_nothing
  (i : Z) (st : Web.State) (C : list Todo.Task) :
  Web.as_tasks (Web.tasks st) = Some C ->
  (forall t, In t C -> Todo.id t <> i) ->
  Web.toggleTask i st = Some st.
Proof.
  intros A H. unfold Web.toggleTask. rewrite A.
  apply PageFacts.toggle_found_none in H. now rewrite H.
Qed.

Lemma toggle_absent_id_does_nothing_witness :
  Web.as_tasks (Web.tasks Inv.sample_page) = Some Inv.sample_tasks
  /\ Web.toggleTask 7 Inv.sample_page = Some Inv.sample_page.
Proof.
  split; [reflexivity|].
  apply (toggle_absent_id_does_nothing 7 Inv.sample_page Inv.sample_tasks
           eq_refl).
  intros t [<-|[<-|[]]]; discriminate.
Defined.

(** * Scenarios

    The scenarios of the specification, run on the embedding. *)

Module Scenarios.

Import Spec.

Example add_add_list :
  Cli.stdout (Cli.processCommand "t" "list" two_tasks)
  = ["Task added successfully!"; "Task added successfully!";
     JS.LF ++ "[ ] 1 - buy milk" ++ JS.LF ++ "[ ] 2 - walk dog" ++ JS.LF].
Proof. reflexivity. Qed.

Example done_then_list :
  Todo.listTasks (Cli.tasks (Cli.processCommand "t" "done 1" two_tasks))
  = "[x] 1 - buy milk" ++ JS.LF ++ "[ ] 2 - walk dog".
Proof. reflexivity. Qed.

Example done_absent_id :
  Cli.processCommand "t" "done 99" two_tasks
  = Cli.console_log "Error: Task with ID 99 not found." two_tasks.
Proof. reflexivity. Qed.

Example add_without_text :
  Cli.processCommand "t" "add" two_tasks
  = Cli.console_log
      "Error: Task text cannot be empty. Use: add <task text>" two_tasks.
Proof. reflexivity. Qed.

Example done_abc_rejected :
  Cli.processCommand "t" "done abc" two_tasks
  = Cli.console_log
      ("Error: " ++ JS.DQUOTE ++ "abc" ++ JS.DQUOTE
         ++ " is not a valid task ID. Please use a number.") two_tasks.
Proof. reflexivity. Qed.

Example quit_exits :
  Cli.exited (Cli.processCommand "t" "QUIT" two_tasks) = Some 0.
Proof. reflexivity. Qed.

Example list_of_nothing : Todo.listTasks [] = "No tasks yet.".
Proof. reflexivity. Qed.

Example saved_text :
  JSON.stringify
    (Web.tasks_value [Todo.mkTask 1 "buy milk" false "2024-01-01T10:00:00.000Z"])
  = "[{" ++ JS.DQUOTE ++ "id" ++ JS.DQUOTE ++ ":1,"
      ++ JS.DQUOTE ++ "text" ++ JS.DQUOTE ++ ":"
      ++ JS.DQUOTE ++ "buy milk" ++ JS.DQUOTE ++ ","
      ++ JS.DQUOTE ++ "completed" ++ JS.DQUOTE ++ ":false,"
      ++ JS.DQUOTE ++ "createdAt" ++ JS.DQUOTE ++ ":"
      ++ JS.DQUOTE ++ "2024-01-01T10:00:00.000Z" ++ JS.DQUOTE ++ "}]".
Proof. reflexivity. Qed.

Example truncated_store :
  JSON.parse "[{" = None
  /\ Web.tasks (Web.init (Some "[{")) = JSON.Arr []
  /\ Web.console_error (Web.init (Some "[{"))
     = ["Error loading tasks from localStorage:"].
Proof. repeat split. Qed.

Example store_of_a_number :
  Web.tasks (Web.init (Some "42")) = JSON.Num 42 0
  /\ Web.addTask "t" (Web.set_taskInput "x" (Web.init (Some "42"))) = None.
Proof. split; reflexivity. Qed.

Example page_session :
  let st0 := Web.set_taskInput " buy milk " (Web.init None) in
  match Web.addTask "2024-01-01T10:00:00.000Z" st0 with
  | Some st1 =>
      match Web.toggleTask 1 st1 with
      | Some st2 =>
          Web.as_tasks (Web.tasks (Web.init (Web.localStorage st2)))
          = Some [Todo.mkTask 1 "buy milk" true "2024-01-01T10:00:00.000Z"]
      | None => False
      end
  | None => False
  end.
Proof. reflexivity. Qed.

(** The largest id is assigned again once its task is deleted. *)
Example id_after_delete :
  let st0 := Web.set_taskInput "a" (Web.init None) in
  match Web.addTask "t1" st0 with
  | Some st1 =>
      match Web.deleteTask 1 st1 with
      | Some st2 =>
          option_map (fun st3 => Web.as_tasks (Web.tasks st3))
            (Web.addTask "t2" (Web.set_taskInput "b" st2))
          = Some (Some [Todo.mkTask 1 "b" false "t2"])
      | None => False
      end
  | None => False
  end.
Proof. reflexivity. Qed.

(** Rounding to doubles beyond 2^53. *)
Example doubles_beyond_two53 :
  JS.to_double (JS.two53 + 1) = JS.two53
  /\ JS.to_double (JS.two53 + 2) = JS.two53 + 2
  /\ JS.to_double (JS.two53 + 3) = JS.two53 + 4
  /\ JS.to_double (- (JS.two53 + 1)) = - JS.two53
  /\ JS.to_double (2 * JS.two53 + 2) = 2 * JS.two53
  /\ JS.add (JS.two53 - 1) 1 = JS.two53
  /\ JS.parseInt "9007199254740993" = Some JS.two53.
Proof. repeat split. Qed.

Example done_beyond_two53 :
  Cli.processCommand "t" "done 9007199254740993" Spec.two_tasks
  = Cli.console_log "Error: Task with ID 9007199254740992 not found."
      Spec.two_tasks.
Proof. reflexivity. Qed.

Example page_add_at_two53 :
  let st := Web.set_taskInput "walk dog"
              (Web.set_tasks (Web.tasks_value Spec.at_two53) (Web.init None)) in
  option_map (fun st' => option_map (map Todo.id) (Web.as_tasks (Web.tasks st')))
    (Web.addTask "t" st)
  = Some (Some [JS.two53; JS.two53]).
Proof. reflexivity. Qed.

Example fresh_page_has_unique_ids : Spec.page_unique_ids (Web.init None).
Proof. exists []. split; [reflexivity|constructor]. Qed.

End Scenarios.
